(** * Leverage feasibility frontier: the risk-evaluation core

    A shallow embedding of [src/model.py] and of the evaluation part of
    [src/simulate.py], with the properties of the specification stated
    over it.

    Arithmetic.  The program computes on Python floats.  The embedding
    computes on the rationals [Q] with exact operations: every finite
    binary64 value is a rational, and the properties below are the
    algebraic ones the specification states "in exact arithmetic".
    Rounding error, infinities and NaN are outside this model.  Equality of
    numbers is [Qeq] (written [==]): two fractions denoting the same
    rational.  One number is not idealised: the point count of the grid
    builder, an integer decided by float rounding and a tolerance, is
    computed on binary64 floats ([Binary64]) as the source computes it.

    Exceptions.  Every error the source raises is a Python [ValueError]
    told apart by its message; [float(None)] raises [TypeError], a
    missing dictionary key [KeyError] and an index out of range
    [IndexError].  A fallible function returns
    [result A]. *)

From Stdlib Require Import QArith Qround Qabs Qpower Lqa Lia ZArith Floats.
From stdpp Require Import base option list strings gmap.

Local Open Scope Q_scope.

(* Decimal float literals denote the nearest binary64 value, as in Python. *)
#[local] Set Warnings "-inexact-float".

(** ** Exceptions and the error monad *)

Inductive exn : Type :=
  | ValueError (msg : string)
  | TypeError (msg : string)
  | KeyError (key : string)
  | OverflowError (msg : string)
  | IndexError (msg : string).

Inductive result (A : Type) : Type :=
  | Ok (a : A)
  | Raise (e : exn).
Arguments Ok {A} a.
Arguments Raise {A} e.

Definition bind {A B : Type} (m : result A) (k : A -> result B) : result B :=
  match m with
  | Ok a => k a
  | Raise e => Raise e
  end.

Notation "'do' x <- m ; k" := (bind m (fun x => k))
  (at level 10, x name, m at level 100, k at level 200).
Notation "'do' ' p <- m ; k" := (bind m (fun x => let 'p := x in k))
  (at level 10, p pattern, m at level 100, k at level 200).

Definition raises {A : Type} (m : result A) : Prop := exists e, m = Raise e.
Definition returns {A : Type} (m : result A) : Prop := exists a, m = Ok a.

(** The error kinds of the specification, as the [ValueError]s the source
    raises for them. *)
Definition ConfigurationError : exn :=
  ValueError "Interest must be > 0 (check rate/debt).".
Definition InvalidRangeError_step : exn := ValueError "step must be > 0".
Definition InvalidRangeError_ltv_unit : exn := ValueError "ltv must be in (0, 1)".
Definition InvalidRangeError_ltv : exn := ValueError "ltv must be > 0".
Definition InvalidRangeError_min_dscr : exn := ValueError "min_dscr must be > 0".
Definition InvalidPresetError_yield : exn := ValueError "gross_yield must be > 0".
Definition InvalidPresetError_pair : exn :=
  ValueError "purchase_price_gbp and annual_rent_gbp must be > 0".
Definition InvalidPresetError_missing : exn :=
  ValueError "Preset must define gross_yield or (purchase_price_gbp, annual_rent_gbp).".
Definition InvalidDistributionError_shape : exn :=
  ValueError "values and weights must be 1D arrays of equal length".
Definition InvalidDistributionError_negative : exn :=
  ValueError "weights must be non-negative".
Definition InvalidDistributionError_sum : exn :=
  ValueError "sum(weights) must be > 0".

Definition InvalidDistributionError (e : exn) : Prop :=
  e = InvalidDistributionError_shape \/ e = InvalidDistributionError_negative \/
  e = InvalidDistributionError_sum.

(** ** Comparisons on [Q] as the booleans the source branches on *)

Definition Qleb (x y : Q) : bool := Qle_bool x y.
Definition Qltb (x y : Q) : bool := negb (Qle_bool y x).
Definition Qgeb (x y : Q) : bool := Qle_bool y x.

(** ** [CashflowModel] (model.py, lines 8-33) *)

Record CashflowModel : Type := {
  operating_cost_ratio : Q;
  interest_only : bool
}.

Module Cashflow.

Definition noi (self : CashflowModel) (gross_rent occupancy : Q) : Q :=
  let c := operating_cost_ratio self in
  (1 - c) * gross_rent * occupancy.

Definition interest (self : CashflowModel) (rate debt : Q) : Q :=
  rate * debt.

Definition net_cashflow (self : CashflowModel)
    (gross_rent occupancy rate debt : Q) : Q :=
  noi self gross_rent occupancy - interest self rate debt.

Definition dscr (self : CashflowModel)
    (gross_rent occupancy rate debt : Q) : result Q :=
  let noi := noi self gross_rent occupancy in
  let intr := interest self rate debt in
  if Qleb intr 0 then Raise ConfigurationError
  else Ok (if Qleb noi 0 then 0 else noi / intr).

End Cashflow.

(** ** Binary64 arithmetic

    IEEE 754 binary64 numbers are the primitive floats of Rocq, which round
    to nearest-even as Python's do.  The grid builder decides an integer,
    its number of points, by the floor of a float quotient plus a tolerance
    that is there for the sake of rounding; that integer is computed here
    as the source computes it.  [rint] adds and subtracts [2^52], which
    rounds a float below [2^52] in magnitude to the nearest integer, ties to
    even; larger floats are integers already. *)

Module Binary64.

Definition two52 : PrimFloat.float := 4503599627370496%float.

Definition rint (x : PrimFloat.float) : PrimFloat.float :=
  if (PrimFloat.abs x <? two52)%float then
    if (x <? 0)%float then ((x - two52) + two52)%float
    else ((x + two52) - two52)%float
  else x.

Definition floor (x : PrimFloat.float) : PrimFloat.float :=
  let r := rint x in
  if (x <? r)%float then (r - 1)%float else r.

(** [int(x)] of a float: exact on the integers, an error on infinities and
    NaN. *)
Definition int (x : PrimFloat.float) : result Z :=
  match Prim2SF x with
  | S754_zero _ => Ok 0%Z
  | S754_finite s m e =>
      let v := if (0 <=? e)%Z then Z.shiftl (Z.pos m) e
               else Z.shiftr (Z.pos m) (- e) in
      Ok (if s then (- v)%Z else v)
  | S754_infinity _ => Raise (OverflowError "cannot convert float infinity to integer")
  | S754_nan => Raise (ValueError "cannot convert float NaN to integer")
  end.

Definition of_nat (k : nat) : PrimFloat.float :=
  PrimFloat.of_uint63 (Uint63.of_Z (Z.of_nat k)).

Definition pow10 (d : nat) : PrimFloat.float :=
  Nat.iter d (fun p => (p * 10)%float) 1%float.

Definition np_round (x : PrimFloat.float) (decimals : nat) : PrimFloat.float :=
  (rint (x * pow10 decimals) / pow10 decimals)%float.

Definition np_arange (n : Z) : list PrimFloat.float :=
  map of_nat (seq 0 (Z.to_nat n)).

(** model.py, line 39: [n = int(np.floor((stop - start) / step + 1e-12)) + 1]. *)
Definition ltv_count (start stop step : PrimFloat.float) : result Z :=
  do f <- int (floor ((stop - start) / step + 1e-12)%float);
  Ok (f + 1)%Z.

(** The grid builder with every operation on binary64. *)
Definition ltv_grid (start stop step : PrimFloat.float)
    : result (list PrimFloat.float) :=
  if (step <=? 0)%float then Raise InvalidRangeError_step
  else
    do n <- ltv_count start stop step;
    let grid := map (fun k => (start + step * k)%float) (np_arange n) in
    Ok (map (fun x => np_round x 10) grid).

(** Neither an infinity nor NaN. *)
Definition is_finite (x : PrimFloat.float) : bool :=
  match Prim2SF x with
  | S754_zero _ | S754_finite _ _ _ => true
  | S754_infinity _ | S754_nan => false
  end.

(** The rational a finite float is: [(-1)^s * m * 2^e]. *)
Definition to_Q (x : PrimFloat.float) : Q :=
  match Prim2SF x with
  | S754_finite s m e =>
      let q := inject_Z (Z.pos m) * 2 ^ e in
      if s then - q else q
  | _ => 0
  end.

End Binary64.

(** A finite binary64 number, and the rational it is. *)
Record double : Type := {
  bits : PrimFloat.float;
  bits_finite : Binary64.is_finite bits = true
}.

Definition value (x : double) : Q := Binary64.to_Q (bits x).

(** ** numpy primitives used by the source

    On the rationals: [np.rint] rounds to the nearest integer, a tie to the
    even one.  [np.round(x, d)] for [d >= 0] is [rint(x * 10**d) / 10**d].
    [np.arange(n)] is [0, 1, ..., n-1], empty when [n <= 0]. *)

Definition rint (x : Q) : Z :=
  let f := Qfloor x in
  match Qcompare (x - inject_Z f) (1 # 2) with
  | Lt => f
  | Gt => (f + 1)%Z
  | Eq => if Z.even f then f else (f + 1)%Z
  end.

Definition pow10 (d : nat) : Q := inject_Z (10 ^ Z.of_nat d).

Definition np_round (x : Q) (decimals : nat) : Q :=
  inject_Z (rint (x * pow10 decimals)) / pow10 decimals.

Definition np_arange (n : Z) : list Q :=
  map (fun k : nat => inject_Z (Z.of_nat k)) (seq 0 (Z.to_nat n)).

(** An array: its shape and its elements in row-major order. *)
Record ndarray : Type := {
  shape : list nat;
  data : list Q
}.

Definition ndim (a : ndarray) : nat := length (shape a).
Definition size (a : ndarray) : nat := foldr Nat.mul 1%nat (shape a).
Definition array1 (xs : list Q) : ndarray :=
  {| shape := [length xs]; data := xs |}.
Definition wf_array (a : ndarray) : Prop := length (data a) = size a.

Definition np_sum (xs : list Q) : Q := foldr Qplus 0 xs.
Definition np_any_lt (xs : list Q) (bound : Q) : bool :=
  existsb (fun w => Qltb w bound) xs.

(** ** Grid builder (model.py, lines 36-41)

    The arguments are finite binary64 numbers.  The number of points is
    the integer the source computes, in binary64 ([Binary64.ltv_count]); a
    quotient that overflows makes [int] raise.  The points themselves are
    idealised like every other number of this file: [start + step * k] and
    its rounding to 10 decimals are computed exactly, on the rationals the
    arguments are. *)

Definition ltv_grid (start stop step : double) : result (list Q) :=
  if (bits step <=? 0)%float then Raise InvalidRangeError_step
  else
    do n <- Binary64.ltv_count (bits start) (bits stop) (bits step);
    let grid := map (fun k => value start + value step * k) (np_arange n) in
    Ok (map (fun x => np_round x 10) grid).

(** The count formula of the specification read in exact arithmetic:
    [floor((stop - start)/step + 1e-12) + 1] on rationals. *)
Definition exact_count (start stop step : Q) : Z :=
  (Qfloor ((stop - start) / step + (1 # 1000000000000)) + 1)%Z.

Definition grid_point (start step : Q) (k : nat) : Q :=
  np_round (start + step * inject_Z (Z.of_nat k)) 10.

(** ** Presets and the yield resolver (model.py, lines 44-75) *)

(** A value of a preset as the configuration file gives it. *)
Inductive pyval : Type :=
  | PyNone
  | PyNum (q : Q).

Definition float (v : pyval) : result Q :=
  match v with
  | PyNum q => Ok q
  | PyNone => Raise (TypeError "float() argument must be a string or a real number")
  end.

Definition is_not_None (v : pyval) : bool :=
  match v with PyNone => false | PyNum _ => true end.

Definition contains (d : gmap string pyval) (k : string) : bool :=
  bool_decide (is_Some (d !! k)).

Definition getitem (d : gmap string pyval) (k : string) : result pyval :=
  match d !! k with
  | Some v => Ok v
  | None => Raise (KeyError k)
  end.

Definition implied_gross_yield (preset : gmap string pyval) : result Q :=
  do explicit <-
    (if contains preset "gross_yield"
     then do v <- getitem preset "gross_yield"; Ok (is_not_None v)
     else Ok false);
  if explicit : bool then
    do v <- getitem preset "gross_yield";
    do gy <- float v;
    if Qleb gy 0 then Raise InvalidPresetError_yield else Ok gy
  else if contains preset "purchase_price_gbp" && contains preset "annual_rent_gbp" then
    do pv <- getitem preset "purchase_price_gbp";
    do price <- float pv;
    do rv <- getitem preset "annual_rent_gbp";
    do rent <- float rv;
    if Qleb price 0 || Qleb rent 0 then Raise InvalidPresetError_pair
    else Ok (rent / price)
  else Raise InvalidPresetError_missing.

Definition normalised_rent_from_yield (gross_yield price : Q) : Q :=
  gross_yield * price.

Definition normalised_debt_from_ltv (ltv price : Q) : result Q :=
  if Qleb ltv 0 || Qgeb ltv 1 then Raise InvalidRangeError_ltv_unit
  else Ok (ltv * price).

Definition no_explicit_yield (preset : gmap string pyval) : Prop :=
  preset !! "gross_yield" = None \/ preset !! "gross_yield" = Some PyNone.

(** ** Analytical solver (model.py, lines 78-111) *)

Definition analytical_max_rate_for_dscr
    (operating_cost_ratio gross_yield ltv occupancy min_dscr : Q) : result Q :=
  let c := operating_cost_ratio in
  let R := gross_yield in
  let D := ltv in
  let occ := occupancy in
  let m := min_dscr in
  if Qleb D 0 then Raise InvalidRangeError_ltv
  else if Qleb m 0 then Raise InvalidRangeError_min_dscr
  else Ok ((1 - c) * R * occ / (m * D)).

Definition analytical_break_even_shock_bp (base_rate max_rate : Q) : Q :=
  10000 * (max_rate - base_rate).

(** ** Weight normalisation (model.py, lines 114-124) *)

Definition normalise_weights (values weights : ndarray)
    : result (ndarray * ndarray) :=
  if negb (ndim values =? 1)%nat || negb (ndim weights =? 1)%nat
     || negb (size values =? size weights)%nat
  then Raise InvalidDistributionError_shape
  else if np_any_lt (data weights) 0 then Raise InvalidDistributionError_negative
  else
    let s := np_sum (data weights) in
    if Qleb s 0 then Raise InvalidDistributionError_sum
    else Ok (values,
             {| shape := shape weights; data := map (fun w => w / s) (data weights) |}).

Definition shape_ok (values weights : ndarray) : Prop :=
  ndim values = 1%nat /\ ndim weights = 1%nat /\ size values = size weights.

(** A marginal distribution the evaluator accepts: equal-length
    one-dimensional values and weights, the weights non-negative with a
    positive sum. *)
Definition valid_distribution (values weights : ndarray) : Prop :=
  wf_array values /\ wf_array weights /\ shape_ok values weights /\
  Forall (fun w => 0 <= w) (data weights) /\ 0 < np_sum (data weights).

(** ** Loops, enumeration and indexing *)

(** A [for] loop over [xs] threading the loop-carried state; an exception
    in the body leaves the loop at once. *)
Fixpoint for_each {A S : Type} (xs : list A) (body : A -> S -> result S)
    (s : S) : result S :=
  match xs with
  | [] => Ok s
  | x :: xs' => do s' <- body x s; for_each xs' body s'
  end.

Fixpoint enumerate_from {A : Type} (start : nat) (xs : list A)
    : list (nat * A) :=
  match xs with
  | [] => []
  | x :: xs' => (start, x) :: enumerate_from (S start) xs'
  end.

Definition enumerate {A : Type} (xs : list A) : list (nat * A) :=
  enumerate_from 0 xs.

Definition np_outer (a b : list Q) : list (list Q) :=
  map (fun x => map (fun y => x * y) b) a.

Definition getitem2 (m : list (list Q)) (i j : nat) : result Q :=
  match m !! i with
  | Some row =>
      match row !! j with
      | Some w => Ok w
      | None => Raise (IndexError "index out of bounds for axis 1")
      end
  | None => Raise (IndexError "index out of bounds for axis 0")
  end.

(** ** Distribution evaluator (simulate.py, lines 47-77) *)

Definition failure_probability_over_distribution
    (model : CashflowModel) (gross_rent debt base_rate : Q)
    (shock_bp_values shock_bp_weights occ_values occ_weights : ndarray)
    (min_dscr min_cashflow : Q) : result Q :=
  do '(shock_bp_values, shock_bp_weights) <-
    normalise_weights shock_bp_values shock_bp_weights;
  do '(occ_values, occ_weights) <- normalise_weights occ_values occ_weights;
  let joint_w := np_outer (data occ_weights) (data shock_bp_weights) in
  do fail_w <-
    for_each (enumerate (data occ_values)) (fun '(i, occ) fail_w =>
      for_each (enumerate (data shock_bp_values)) (fun '(j, shock_bp) fail_w =>
        let rate := base_rate + shock_bp / 10000 in
        let cf := Cashflow.net_cashflow model gross_rent occ rate debt in
        do dscr <- Cashflow.dscr model gross_rent occ rate debt;
        let failed := Qltb dscr min_dscr || Qltb cf min_cashflow in
        if failed then do w <- getitem2 joint_w i j; Ok (fail_w + w)
        else Ok fail_w) fail_w) 0;
  Ok fail_w.

(** ** Scenario classification and the reference sum of the evaluator *)

Definition scenario_rate (base_rate shock_bp : Q) : Q :=
  base_rate + shock_bp / 10000.

(** The DSCR of a scenario as a number: [noi / interest], floored at [0]
    when the net operating income is not positive. *)
Definition dscr_value (model : CashflowModel) (gross_rent debt base_rate : Q)
    (occ shock_bp : Q) : Q :=
  let noi := Cashflow.noi model gross_rent occ in
  if Qleb noi 0 then 0
  else noi / Cashflow.interest model (scenario_rate base_rate shock_bp) debt.

(** A pair fails when its DSCR is below the minimum or its net cashflow is
    below the minimum. *)
Definition pair_failed (model : CashflowModel)
    (gross_rent debt base_rate min_dscr min_cashflow : Q)
    (occ shock_bp : Q) : bool :=
  Qltb (dscr_value model gross_rent debt base_rate occ shock_bp) min_dscr
  || Qltb (Cashflow.net_cashflow model gross_rent occ
             (scenario_rate base_rate shock_bp) debt)
          min_cashflow.

Definition positive_interest (debt base_rate shock_bp : Q) : Prop :=
  0 < scenario_rate base_rate shock_bp * debt.

Definition renormalised (ws : list Q) : list Q :=
  map (fun w => w / np_sum ws) ws.

(** The reference value of the specification: over the Cartesian product of
    the two supports, each value paired with its renormalised weight, the
    sum of the products of the weights of the failed pairs. *)
Definition joint_failure_mass (model : CashflowModel)
    (gross_rent debt base_rate min_dscr min_cashflow : Q)
    (occs shocks : list (Q * Q)) : Q :=
  np_sum
    (map (fun '((_, po), (_, ps)) => po * ps)
       (List.filter
          (fun '((occ, _), (shock, _)) =>
             pair_failed model gross_rent debt base_rate min_dscr min_cashflow
               occ shock)
          (list_prod occs shocks))).

Definition brute_force_failure_probability (model : CashflowModel)
    (gross_rent debt base_rate min_dscr min_cashflow : Q)
    (shock_bp_values shock_bp_weights occ_values occ_weights : list Q) : Q :=
  joint_failure_mass model gross_rent debt base_rate min_dscr min_cashflow
    (zip occ_values (renormalised occ_weights))
    (zip shock_bp_values (renormalised shock_bp_weights)).

(** The mass of the failed pairs of one occupancy value. *)
Definition row_failure_mass (model : CashflowModel)
    (gross_rent debt base_rate min_dscr min_cashflow : Q)
    (occ po : Q) (shocks : list (Q * Q)) : Q :=
  np_sum
    (map (fun '(_, ps) => po * ps)
       (List.filter
          (fun '(shock, _) =>
             pair_failed model gross_rent debt base_rate min_dscr min_cashflow
               occ shock)
          shocks)).

(** The bodies of the two loops of the evaluator, named. *)
Definition inner_body (model : CashflowModel)
    (gross_rent debt base_rate min_dscr min_cashflow : Q)
    (joint_w : list (list Q)) (i : nat) (occ : Q)
    : nat * Q -> Q -> result Q :=
  fun '(j, shock_bp) fail_w =>
    let rate := base_rate + shock_bp / 10000 in
    let cf := Cashflow.net_cashflow model gross_rent occ rate debt in
    do dscr <- Cashflow.dscr model gross_rent occ rate debt;
    let failed := Qltb dscr min_dscr || Qltb cf min_cashflow in
    if failed then do w <- getitem2 joint_w i j; Ok (fail_w + w)
    else Ok fail_w.

Definition outer_body (model : CashflowModel)
    (gross_rent debt base_rate min_dscr min_cashflow : Q)
    (joint_w : list (list Q)) (shock_bp_values : list Q)
    : nat * Q -> Q -> result Q :=
  fun '(i, occ) fail_w =>
    for_each (enumerate shock_bp_values)
      (inner_body model gross_rent debt base_rate min_dscr min_cashflow
         joint_w i occ)
      fail_w.

(** ** Sweep orchestrator (simulate.py, lines 32-44 and 80-187) *)

(** The parsed configuration [main] reads its parameters from. *)
Record Assumptions : Type := {
  cfg_operating_cost_ratio : Q;
  cfg_base_interest_rate_value : option Q;
  cfg_min_dscr : Q;
  cfg_min_cashflow : Q;
  cfg_max_failure_probability : Q;
  cfg_stress_occupancy : Q;
  cfg_stress_rate_shock_bp : Q;
  cfg_presets : gmap string (gmap string pyval);
  cfg_default_preset : option string;
  cfg_sweep_start : double;
  cfg_sweep_stop : double;
  cfg_sweep_step : double;
  cfg_shock_bp_values : ndarray;
  cfg_shock_bp_weights : ndarray;
  cfg_occ_values : ndarray;
  cfg_occ_weights : ndarray
}.

(** The command line: [--preset] and [--base-rate]. *)
Record Args : Type := {
  arg_preset : option string;
  arg_base_rate : option Q
}.

Definition select_preset (assumptions : Assumptions) (preset_name : option string)
    : result (string * gmap string pyval) :=
  let presets := cfg_presets assumptions in
  let default_name := cfg_default_preset assumptions in
  let name := match preset_name with Some n => Some n | None => default_name end in
  match name with
  | None =>
      Raise (ValueError "No preset provided and calibration.default_preset is missing.")
  | Some name =>
      match presets !! name with
      | None => Raise (ValueError ("Unknown preset '" ++ name ++ "'"))
      | Some preset => Ok (name, preset)
      end
  end.

(** A float that may be [np.inf], the start of a running minimum. *)
Inductive ext : Type :=
  | PosInf
  | Fin (q : Q).

Definition py_min (a : ext) (b : Q) : ext :=
  match a with
  | PosInf => Fin b
  | Fin x => if Qltb b x then Fin b else Fin x
  end.

Record Row : Type := {
  row_preset : string;
  row_gross_yield : Q;
  row_base_rate : Q;
  row_ltv : Q;
  row_theta_rent_to_debt : Q;
  row_stress_occ : Q;
  row_stress_shock_bp : Q;
  row_stress_rate : Q;
  row_stress_cashflow : Q;
  row_stress_dscr : Q;
  row_worst_cashflow_on_support : ext;
  row_worst_dscr_on_support : ext;
  row_failure_probability : Q;
  row_max_failure_probability : Q;
  row_max_shock_bp_at_stress_occ_dscr1 : Q;
  row_passes_stress : bool;
  row_passes_probability : bool;
  row_admissible : bool
}.

(** One iteration of the loop of [main] (lines 118-187): the row of one
    LTV value. *)
Definition sweep_row (model : CashflowModel) (preset_name : string)
    (c gross_yield base_rate min_dscr min_cf max_fail_prob stress_occ
     stress_shock_bp : Q)
    (shock_bp_values shock_bp_weights occ_values occ_weights : ndarray)
    (ltv : Q) : result Row :=
  let R := normalised_rent_from_yield gross_yield 1 in
  do D <- normalised_debt_from_ltv ltv 1;
  let stress_rate := base_rate + stress_shock_bp / 10000 in
  let stress_cf := Cashflow.net_cashflow model R stress_occ stress_rate D in
  do stress_dscr <- Cashflow.dscr model R stress_occ stress_rate D;
  let passes_stress := Qgeb stress_cf min_cf && Qgeb stress_dscr min_dscr in
  do p_fail <-
    failure_probability_over_distribution model R D base_rate
      shock_bp_values shock_bp_weights occ_values occ_weights min_dscr min_cf;
  let passes_prob := Qleb p_fail max_fail_prob in
  do '(worst_cf, worst_dscr) <-
    for_each (data occ_values) (fun occ worst =>
      for_each (data shock_bp_values) (fun shock_bp '(worst_cf, worst_dscr) =>
        let rate := base_rate + shock_bp / 10000 in
        let cf := Cashflow.net_cashflow model R occ rate D in
        do ds <- Cashflow.dscr model R occ rate D;
        Ok (py_min worst_cf cf, py_min worst_dscr ds)) worst)
      (PosInf, PosInf);
  do max_rate <- analytical_max_rate_for_dscr c gross_yield ltv stress_occ min_dscr;
  let max_shock_bp := analytical_break_even_shock_bp base_rate max_rate in
  let admissible := passes_stress && passes_prob in
  Ok {| row_preset := preset_name;
        row_gross_yield := gross_yield;
        row_base_rate := base_rate;
        row_ltv := ltv;
        row_theta_rent_to_debt := gross_yield / ltv;
        row_stress_occ := stress_occ;
        row_stress_shock_bp := stress_shock_bp;
        row_stress_rate := stress_rate;
        row_stress_cashflow := stress_cf;
        row_stress_dscr := stress_dscr;
        row_worst_cashflow_on_support := worst_cf;
        row_worst_dscr_on_support := worst_dscr;
        row_failure_probability := p_fail;
        row_max_failure_probability := max_fail_prob;
        row_max_shock_bp_at_stress_occ_dscr1 := max_shock_bp;
        row_passes_stress := passes_stress;
        row_passes_probability := passes_prob;
        row_admissible := admissible |}.

(** Lines 189-196.  The rows become a data frame whose columns are the keys
    of the rows, and the frame is written to the CSV file.  The console
    snapshot then selects five columns: a table without rows has no columns
    at all, and the selection raises [KeyError]. *)
Definition console_snapshot (rows : list Row) : result (list Row) :=
  match rows with
  | [] =>
      Raise (KeyError "None of [Index(['ltv', 'failure_probability', 'passes_stress', 'passes_probability', 'admissible'], dtype='object')] are in the [columns]")
  | _ :: _ => Ok rows
  end.

(** [main]: the table of rows it writes and prints (the files are not
    modelled). *)
Definition main (args : Args) (assumptions : Assumptions) : result (list Row) :=
  let c := cfg_operating_cost_ratio assumptions in
  let yaml_base_rate := default (1 # 20) (cfg_base_interest_rate_value assumptions) in
  let base_rate := default yaml_base_rate (arg_base_rate args) in
  let min_dscr := cfg_min_dscr assumptions in
  let min_cf := cfg_min_cashflow assumptions in
  let max_fail_prob := cfg_max_failure_probability assumptions in
  let stress_occ := cfg_stress_occupancy assumptions in
  let stress_shock_bp := cfg_stress_rate_shock_bp assumptions in
  do '(preset_name, preset) <- select_preset assumptions (arg_preset args);
  do gross_yield <- implied_gross_yield preset;
  do ltvs <- ltv_grid (cfg_sweep_start assumptions) (cfg_sweep_stop assumptions)
                      (cfg_sweep_step assumptions);
  let shock_bp_values := cfg_shock_bp_values assumptions in
  let shock_bp_weights := cfg_shock_bp_weights assumptions in
  let occ_values := cfg_occ_values assumptions in
  let occ_weights := cfg_occ_weights assumptions in
  let model := {| operating_cost_ratio := c; interest_only := true |} in
  do rows <-
    for_each ltvs (fun ltv rows =>
      do row <- sweep_row model preset_name c gross_yield base_rate min_dscr min_cf
                  max_fail_prob stress_occ stress_shock_bp
                  shock_bp_values shock_bp_weights occ_values occ_weights ltv;
      Ok (rows ++ [row])) [];
  console_snapshot rows.

(** What the flags of a row say, for the model, thresholds, stress scenario
    and distributions of one run. *)
Definition row_consistent (model : CashflowModel)
    (base_rate min_dscr min_cf max_fail_prob stress_occ stress_shock_bp : Q)
    (shock_bp_values shock_bp_weights occ_values occ_weights : ndarray)
    (row : Row) : Prop :=
  let R := normalised_rent_from_yield (row_gross_yield row) 1 in
  let stress_rate := base_rate + stress_shock_bp / 10000 in
  exists D,
    normalised_debt_from_ltv (row_ltv row) 1 = Ok D /\
    row_stress_cashflow row =
      Cashflow.net_cashflow model R stress_occ stress_rate D /\
    Cashflow.dscr model R stress_occ stress_rate D = Ok (row_stress_dscr row) /\
    failure_probability_over_distribution model R D base_rate
      shock_bp_values shock_bp_weights occ_values occ_weights min_dscr min_cf
      = Ok (row_failure_probability row) /\
    (row_passes_stress row = true <->
       min_cf <= row_stress_cashflow row /\ min_dscr <= row_stress_dscr row) /\
    (row_passes_probability row = true <->
       row_failure_probability row <= max_fail_prob) /\
    (row_admissible row = true <->
       row_passes_stress row = true /\ row_passes_probability row = true).

Definition run_model (assumptions : Assumptions) : CashflowModel :=
  {| operating_cost_ratio := cfg_operating_cost_ratio assumptions;
     interest_only := true |}.

Definition run_base_rate (args : Args) (assumptions : Assumptions) : Q :=
  default (default (1 # 20) (cfg_base_interest_rate_value assumptions))
          (arg_base_rate args).

(** ** Sample inputs *)

Definition d0 : double := {| bits := 0%float; bits_finite := eq_refl |}.
Definition d1 : double := {| bits := 1%float; bits_finite := eq_refl |}.
Definition d3 : double := {| bits := 3%float; bits_finite := eq_refl |}.
Definition d0_5 : double := {| bits := 0.5%float; bits_finite := eq_refl |}.
Definition d0_8 : double := {| bits := 0.8%float; bits_finite := eq_refl |}.
Definition d0_05 : double := {| bits := 0.05%float; bits_finite := eq_refl |}.
(** [8193 - 2^-39], [7427640235712282 * 2^-91] and the least positive
    double [2^-1074]. *)
Definition d8193_less : double :=
  {| bits := (8193 - 0x1p-39)%float; bits_finite := eq_refl |}.
Definition d3e_12 : double :=
  {| bits := (7427640235712282 * 0x1p-91)%float; bits_finite := eq_refl |}.
Definition dmin : double := {| bits := 0x1p-1074%float; bits_finite := eq_refl |}.

Definition sample_model : CashflowModel :=
  {| operating_cost_ratio := 3 # 10; interest_only := true |}.

Definition sample_assumptions : Assumptions :=
  {| cfg_operating_cost_ratio := 3 # 10;
     cfg_base_interest_rate_value := Some (1 # 20);
     cfg_min_dscr := 1;
     cfg_min_cashflow := 0;
     cfg_max_failure_probability := 1 # 10;
     cfg_stress_occupancy := 9 # 10;
     cfg_stress_rate_shock_bp := 100;
     cfg_presets :=
       {[ "explicit" := {[ "gross_yield" := PyNum (7 # 100) ]};
          "priced" := {[ "purchase_price_gbp" := PyNum 500000;
                         "annual_rent_gbp" := PyNum 30000 ]} ]};
     cfg_default_preset := Some "explicit";
     cfg_sweep_start := d0_5;
     cfg_sweep_stop := d0_8;
     cfg_sweep_step := d0_05;
     cfg_shock_bp_values := array1 [0; 100; 200];
     cfg_shock_bp_weights := array1 [5; 3; 2];
     cfg_occ_values := array1 [1; 9 # 10];
     cfg_occ_weights := array1 [3; 1] |}.

Definition sample_args : Args := {| arg_preset := None; arg_base_rate := None |}.

Definition preset_zero_yield_with_pair : gmap string pyval :=
  {[ "gross_yield" := PyNum 0;
     "purchase_price_gbp" := PyNum 500000;
     "annual_rent_gbp" := PyNum 30000 ]}.

Definition preset_explicit : gmap string pyval :=
  {[ "gross_yield" := PyNum (6 # 100) ]}.
Definition preset_priced : gmap string pyval :=
  {[ "purchase_price_gbp" := PyNum 500000; "annual_rent_gbp" := PyNum 30000 ]}.

(** ** The worst case on the support, the output file, the plotting script *)

(** The loop of simulate.py, lines 144-152, as [sweep_row] runs it: the
    running minima of cashflow and DSCR over every pair of the support. *)
Definition worst_case_on_support (model : CashflowModel) (R D base_rate : Q)
    (occ_values shock_bp_values : list Q) : result (ext * ext) :=
  for_each occ_values (fun occ worst =>
    for_each shock_bp_values (fun shock_bp '(worst_cf, worst_dscr) =>
      let rate := base_rate + shock_bp / 10000 in
      let cf := Cashflow.net_cashflow model R occ rate D in
      do ds <- Cashflow.dscr model R occ rate D;
      Ok (py_min worst_cf cf, py_min worst_dscr ds)) worst)
    (PosInf, PosInf).

(** [m] is the least element of [xs]: a lower bound that occurs in it. *)
Definition least_of (m : Q) (xs : list Q) : Prop :=
  m ∈ xs /\ Forall (fun x => m <= x) xs.

(** The cashflows and DSCR values of all pairs of the support, in loop
    order. *)
Definition support_cashflows (model : CashflowModel) (R D base_rate : Q)
    (occ_values shock_bp_values : list Q) : list Q :=
  map (fun '(occ, shock_bp) =>
         Cashflow.net_cashflow model R occ (scenario_rate base_rate shock_bp) D)
      (list_prod occ_values shock_bp_values).

Definition support_dscrs (model : CashflowModel) (R D base_rate : Q)
    (occ_values shock_bp_values : list Q) : list Q :=
  map (fun '(occ, shock_bp) => dscr_value model R D base_rate occ shock_bp)
      (list_prod occ_values shock_bp_values).

(** The sum of the joint weights of the pairs a test [f] selects. *)
Definition filtered_mass (f : Q -> Q -> bool) (occs shocks : list (Q * Q)) : Q :=
  np_sum
    (map (fun '((_, po), (_, ps)) => po * ps)
       (List.filter (fun '((occ, _), (shock, _)) => f occ shock)
          (list_prod occs shocks))).

(** The weight of a pair of (value, weight) points, a test on its values,
    and an array with every element multiplied by [k]. *)
Definition joint_weight (x : (Q * Q) * (Q * Q)) : Q :=
  let '((_, po), (_, ps)) := x in po * ps.

Definition on_values (f : Q -> Q -> bool) (x : (Q * Q) * (Q * Q)) : bool :=
  let '((occ, _), (shock, _)) := x in f occ shock.

Definition scale_array (k : Q) (a : ndarray) : ndarray :=
  {| shape := shape a; data := map (Qmult k) (data a) |}.

(** Two (value, weight) points with the same value and equal weights. *)
Definition same_point (x y : Q * Q) : Prop := fst x = fst y /\ snd x == snd y.

(** [os.path.join] of a directory and a file name. *)
Definition path_join (dir name : string) : string := dir ++ "/" ++ name.

(** The table file [simulate.py] writes (line 192). *)
Definition out_csv (results_dir preset_name : string) : string :=
  path_join results_dir ("feasibility_frontier__" ++ preset_name ++ ".csv").

(** [plots.py], lines 28-33: the preset name and the table file the
    plotting script looks for. *)
Module Plots.

Definition resolve_preset (assumptions : Assumptions) (arg : option string)
    : result string :=
  let default_preset := cfg_default_preset assumptions in
  let preset := match arg with Some n => Some n | None => default_preset end in
  match preset with
  | None =>
      Raise (ValueError "No preset provided and calibration.default_preset is missing.")
  | Some preset => Ok preset
  end.

Definition csv_path (results_dir : string) (assumptions : Assumptions)
    (arg : option string) : result string :=
  do preset <- resolve_preset assumptions arg;
  Ok (path_join results_dir ("feasibility_frontier__" ++ preset ++ ".csv")).

End Plots.


(** * Properties *)

(** ** Comparisons *)

Lemma Qleb_le x y : Qleb x y = true <-> x <= y.
Proof. apply Qle_bool_iff. Qed.

Lemma Qleb_gt x y : Qleb x y = false <-> y < x.
Proof.
  rewrite <- not_true_iff_false, Qleb_le. split.
  - apply Qnot_le_lt.
  - apply Qlt_not_le.
Qed.

Lemma Qltb_lt x y : Qltb x y = true <-> x < y.
Proof. unfold Qltb. rewrite negb_true_iff. apply Qleb_gt. Qed.

Lemma Qltb_ge x y : Qltb x y = false <-> y <= x.
Proof. unfold Qltb. rewrite negb_false_iff. apply Qle_bool_iff. Qed.

Lemma Qgeb_ge x y : Qgeb x y = true <-> y <= x.
Proof. apply Qle_bool_iff. Qed.

(** ** Arithmetic helpers *)

Lemma Qdiv_pos (a b : Q) : 0 < a -> 0 < b -> 0 < a / b.
Proof.
  intros Ha Hb. apply Qlt_shift_div_l; [exact Hb|]. now rewrite Qmult_0_l.
Qed.

Lemma Qmult_pos (a b : Q) : 0 < a -> 0 < b -> 0 < a * b.
Proof. intros Ha Hb. nra. Qed.

Lemma Qdiv_antitone (n a b : Q) : 0 < n -> 0 < a -> a < b -> n / b < n / a.
Proof.
  intros Hn Ha Hab.
  assert (Hb : 0 < b) by lra.
  apply Qlt_shift_div_r; [exact Hb|].
  assert (Hq : 0 < n / a) by now apply Qdiv_pos.
  assert (E : n == n / a * a) by (field; lra).
  rewrite E at 1. nra.
Qed.

(** ** The cashflow model *)

Lemma dscr_raises_iff self gross_rent occupancy rate debt :
  raises (Cashflow.dscr self gross_rent occupancy rate debt) <->
  Cashflow.interest self rate debt <= 0.
Proof.
  unfold raises, Cashflow.dscr.
  destruct (Qleb (Cashflow.interest self rate debt) 0) eqn:E.
  - apply Qleb_le in E. split; [intros _; exact E | intros _; eauto].
  - apply Qleb_gt in E. split.
    + intros [e He]. discriminate.
    + intros H. lra.
Qed.

Lemma dscr_positive_interest self gross_rent occupancy rate debt :
  0 < Cashflow.interest self rate debt ->
  Cashflow.dscr self gross_rent occupancy rate debt =
  Ok (if Qleb (Cashflow.noi self gross_rent occupancy) 0 then 0
      else Cashflow.noi self gross_rent occupancy /
           Cashflow.interest self rate debt).
Proof.
  intros H. unfold Cashflow.dscr. apply Qleb_gt in H. now rewrite H.
Qed.

(** C2.  [dscr] raises the configuration error if and only if the interest
    [rate * debt] is not positive; otherwise it returns exactly [0] when the
    net operating income is not positive, and [noi / interest] when it is. *)
Theorem dscr_error_and_floor_policy
    (self : CashflowModel) (gross_rent occupancy rate debt : Q) :
  let noi := (1 - operating_cost_ratio self) * gross_rent * occupancy in
  let intr := rate * debt in
  (Cashflow.dscr self gross_rent occupancy rate debt = Raise ConfigurationError
     <-> intr <= 0) /\
  (raises (Cashflow.dscr self gross_rent occupancy rate debt) <-> intr <= 0) /\
  (0 < intr -> noi <= 0 ->
     Cashflow.dscr self gross_rent occupancy rate debt = Ok 0) /\
  (0 < intr -> 0 < noi ->
     Cashflow.dscr self gross_rent occupancy rate debt = Ok (noi / intr)).
Proof.
  intros noi intr.
  assert (R : raises (Cashflow.dscr self gross_rent occupancy rate debt)
              <-> intr <= 0) by apply dscr_raises_iff.
  split; [|split; [exact R|split]].
  - split.
    + intros H. apply R. eexists; exact H.
    + intros H. unfold Cashflow.dscr, Cashflow.interest.
      apply Qleb_le in H. fold intr. now rewrite H.
  - intros Hi Hn. rewrite dscr_positive_interest by exact Hi.
    apply Qleb_le in Hn. unfold Cashflow.noi. fold noi. now rewrite Hn.
  - intros Hi Hn. rewrite dscr_positive_interest by exact Hi.
    apply Qleb_gt in Hn. unfold Cashflow.noi, Cashflow.interest.
    fold noi. fold intr. now rewrite Hn.
Qed.

Lemma dscr_error_and_floor_policy_witness :
  (Cashflow.dscr sample_model (7 # 100) (9 # 10) 0 (7 # 10) = Raise ConfigurationError) /\
  (Cashflow.dscr sample_model (7 # 100) 0 (1 # 20) (7 # 10) = Ok 0) /\
  (Cashflow.dscr sample_model (7 # 100) (9 # 10) (1 # 20) (7 # 10) =
     Ok ((1 - (3 # 10)) * (7 # 100) * (9 # 10) / ((1 # 20) * (7 # 10)))).
Proof.
  split; [|split].
  - apply (dscr_error_and_floor_policy sample_model (7 # 100) (9 # 10) 0 (7 # 10)).
    vm_compute. discriminate.
  - apply (dscr_error_and_floor_policy sample_model (7 # 100) 0 (1 # 20) (7 # 10));
      vm_compute; [reflexivity | discriminate].
  - apply (dscr_error_and_floor_policy sample_model (7 # 100) (9 # 10) (1 # 20) (7 # 10));
      vm_compute; reflexivity.
Defined.

(** ** The analytical solver *)

Lemma analytical_max_rate_ok (c R D occ m : Q) :
  0 < D -> 0 < m ->
  analytical_max_rate_for_dscr c R D occ m = Ok ((1 - c) * R * occ / (m * D)).
Proof.
  intros HD Hm. unfold analytical_max_rate_for_dscr.
  apply Qleb_gt in HD, Hm. now rewrite HD, Hm.
Qed.

(** The worked example of the specification: cost ratio 0.3, yield 0.07,
    LTV 0.7, occupancy 0.9 and minimum DSCR 1 give a ceiling rate of 0.063,
    that is 130 bp above a base rate of 0.05. *)
Lemma analytical_solver_example :
  exists r,
    analytical_max_rate_for_dscr (3 # 10) (7 # 100) (7 # 10) (9 # 10) 1 = Ok r /\
    r == 63 # 1000 /\
    analytical_break_even_shock_bp (1 # 20) r == 130.
Proof. eexists. split; [reflexivity|]. split; reflexivity. Qed.

(** C1.  The analytical solver is an exact inverse of the model's DSCR: for
    [c < 1] and positive gross yield, occupancy, LTV and minimum DSCR, the
    solver returns a rate [r], and the model's DSCR at that rate and at debt
    equal to the LTV is exactly the minimum DSCR. *)
Theorem analytical_max_rate_inverts_dscr
    (self : CashflowModel) (R D occ m : Q) :
  operating_cost_ratio self < 1 -> 0 < R -> 0 < occ -> 0 < D -> 0 < m ->
  exists r d,
    analytical_max_rate_for_dscr (operating_cost_ratio self) R D occ m = Ok r /\
    Cashflow.dscr self R occ r D = Ok d /\
    d == m.
Proof.
  intros Hc HR Hocc HD Hm.
  set (c := operating_cost_ratio self) in *.
  assert (Hnoi : 0 < (1 - c) * R * occ).
  { apply Qmult_pos; [apply Qmult_pos|]; lra. }
  assert (HmD : 0 < m * D) by now apply Qmult_pos.
  assert (Hr : 0 < (1 - c) * R * occ / (m * D)) by now apply Qdiv_pos.
  eexists. eexists. split; [now apply analytical_max_rate_ok|].
  split.
  - apply dscr_positive_interest. unfold Cashflow.interest.
    now apply Qmult_pos.
  - unfold Cashflow.noi, Cashflow.interest. fold c.
    apply Qleb_gt in Hnoi. rewrite Hnoi. apply Qleb_gt in Hnoi.
    field. repeat split; lra.
Qed.

Lemma analytical_max_rate_inverts_dscr_witness :
  exists r d,
    analytical_max_rate_for_dscr (3 # 10) (7 # 100) (7 # 10) (9 # 10) 1 = Ok r /\
    Cashflow.dscr sample_model (7 # 100) (9 # 10) r (7 # 10) = Ok d /\
    d == 1.
Proof.
  apply (analytical_max_rate_inverts_dscr sample_model (7 # 100) (7 # 10) (9 # 10) 1);
    reflexivity.
Defined.

(** C9.  The break-even shock is exactly [10000 * (max_rate - base_rate)];
    when the ceiling rate is below the base rate it is negative, and it is
    returned as it is. *)
Theorem break_even_shock_bp_unclamped (base_rate max_rate : Q) :
  analytical_break_even_shock_bp base_rate max_rate =
    10000 * (max_rate - base_rate) /\
  (max_rate < base_rate ->
     analytical_break_even_shock_bp base_rate max_rate < 0).
Proof.
  split; [reflexivity|].
  intros H. unfold analytical_break_even_shock_bp. lra.
Qed.

Lemma break_even_shock_bp_unclamped_witness :
  analytical_break_even_shock_bp (1 # 20) (1 # 25) < 0.
Proof.
  apply (break_even_shock_bp_unclamped (1 # 20) (1 # 25)). reflexivity.
Defined.

(** ** Monotonicity in the LTV *)

(** C7, as stated, fails at occupancy zero: the net operating income is
    zero, the DSCR is floored at [0] for every LTV, and a higher LTV does
    not lower it. *)
Lemma dscr_not_decreasing_at_zero_occupancy :
  ~ (exists d1 d2,
       Cashflow.dscr sample_model (7 # 100) 0 (1 # 20) (1 # 2) = Ok d1 /\
       Cashflow.dscr sample_model (7 # 100) 0 (1 # 20) (7 # 10) = Ok d2 /\
       d2 < d1).
Proof.
  intros (d1 & d2 & H1 & H2 & Hlt).
  vm_compute in H1, H2.
  injection H1 as <-. injection H2 as <-.
  revert Hlt. apply Qlt_irrefl.
Qed.

(** C7, amended.  With gross yield, occupancy, rate and minimum DSCR
    positive and cost ratio below one, a higher LTV gives a strictly lower
    DSCR and a strictly lower maximum tolerable shock. *)
Theorem higher_ltv_lowers_dscr_and_max_shock
    (self : CashflowModel) (R occ rate min_dscr base_rate ltv1 ltv2 : Q) :
  0 < R -> operating_cost_ratio self < 1 -> 0 < occ -> 0 < rate ->
  0 < min_dscr -> 0 < ltv1 -> ltv1 < ltv2 ->
  exists d1 d2 r1 r2,
    Cashflow.dscr self R occ rate ltv1 = Ok d1 /\
    Cashflow.dscr self R occ rate ltv2 = Ok d2 /\
    d2 < d1 /\
    analytical_max_rate_for_dscr (operating_cost_ratio self) R ltv1 occ min_dscr
      = Ok r1 /\
    analytical_max_rate_for_dscr (operating_cost_ratio self) R ltv2 occ min_dscr
      = Ok r2 /\
    analytical_break_even_shock_bp base_rate r2 <
    analytical_break_even_shock_bp base_rate r1.
Proof.
  intros HR Hc Hocc Hrate Hm H1 H12.
  set (c := operating_cost_ratio self) in *.
  assert (H2 : 0 < ltv2) by lra.
  assert (Hnoi : 0 < (1 - c) * R * occ).
  { apply Qmult_pos; [apply Qmult_pos|]; lra. }
  assert (Hi1 : 0 < rate * ltv1) by now apply Qmult_pos.
  assert (Hi2 : 0 < rate * ltv2) by now apply Qmult_pos.
  do 4 eexists.
  split; [now apply dscr_positive_interest|].
  split; [now apply dscr_positive_interest|].
  split.
  - unfold Cashflow.noi, Cashflow.interest. fold c.
    apply Qleb_gt in Hnoi. rewrite Hnoi. apply Qleb_gt in Hnoi.
    apply Qdiv_antitone; [exact Hnoi | exact Hi1 | nra].
  - split; [now apply analytical_max_rate_ok|].
    split; [now apply analytical_max_rate_ok|].
    unfold analytical_break_even_shock_bp.
    assert ((1 - c) * R * occ / (min_dscr * ltv2) <
            (1 - c) * R * occ / (min_dscr * ltv1)).
    { apply Qdiv_antitone; [exact Hnoi | now apply Qmult_pos | nra]. }
    lra.
Qed.

Lemma higher_ltv_lowers_dscr_and_max_shock_witness :
  exists d1 d2 r1 r2,
    Cashflow.dscr sample_model (7 # 100) (9 # 10) (1 # 20) (1 # 2) = Ok d1 /\
    Cashflow.dscr sample_model (7 # 100) (9 # 10) (1 # 20) (7 # 10) = Ok d2 /\
    d2 < d1 /\
    analytical_max_rate_for_dscr (3 # 10) (7 # 100) (1 # 2) (9 # 10) 1 = Ok r1 /\
    analytical_max_rate_for_dscr (3 # 10) (7 # 100) (7 # 10) (9 # 10) 1 = Ok r2 /\
    analytical_break_even_shock_bp (1 # 20) r2 <
    analytical_break_even_shock_bp (1 # 20) r1.
Proof.
  apply (higher_ltv_lowers_dscr_and_max_shock sample_model
           (7 # 100) (9 # 10) (1 # 20) 1 (1 # 20) (1 # 2) (7 # 10));
    reflexivity.
Defined.

(** ** Rounding *)

Lemma rint_cases (x : Q) :
  let f := Qfloor x in
  (x - inject_Z f < 1 # 2 /\ rint x = f) \/
  (1 # 2 < x - inject_Z f /\ rint x = (f + 1)%Z) \/
  (x - inject_Z f == 1 # 2 /\ (rint x = f \/ rint x = (f + 1)%Z)).
Proof.
  intros f. unfold rint. fold f.
  destruct (Qcompare_spec (x - inject_Z f) (1 # 2)) as [E|E|E].
  - right. right. split; [exact E|]. destruct (Z.even f); auto.
  - left. auto.
  - right. left. auto.
Qed.

Lemma Qfloor_bounds (x : Q) :
  inject_Z (Qfloor x) <= x /\ x < inject_Z (Qfloor x) + 1.
Proof.
  split; [apply Qfloor_le|].
  pose proof (Qlt_floor x) as H.
  rewrite inject_Z_plus in H. exact H.
Qed.

(** [rint x] is within one half of [x]. *)
Lemma rint_close (x : Q) :
  x - (1 # 2) <= inject_Z (rint x) /\ inject_Z (rint x) <= x + (1 # 2).
Proof.
  pose proof (Qfloor_bounds x) as [Hl Hu].
  destruct (rint_cases x) as [[H ->]|[[H ->]|[H [-> | ->]]]];
    rewrite ?inject_Z_plus; change (inject_Z 1) with 1; split; lra.
Qed.

Lemma rint_monotone (x y : Q) : x <= y -> (rint x <= rint y)%Z.
Proof.
  intros Hxy.
  pose proof (Qfloor_resp_le _ _ Hxy) as Hf.
  assert (Hrx : (rint x <= Qfloor x + 1)%Z).
  { destruct (rint_cases x) as [[_ ->]|[[_ ->]|[_ [-> | ->]]]]; lia. }
  assert (Hry : (Qfloor y <= rint y)%Z).
  { destruct (rint_cases y) as [[_ ->]|[[_ ->]|[_ [-> | ->]]]]; lia. }
  destruct (Z.eq_dec (Qfloor x) (Qfloor y)) as [E|NE]; [|lia].
  unfold rint. rewrite <- E.
  destruct (Qcompare_spec (x - inject_Z (Qfloor x)) (1 # 2)) as [Ex|Ex|Ex];
  destruct (Qcompare_spec (y - inject_Z (Qfloor x)) (1 # 2)) as [Ey|Ey|Ey];
    try lia; try (destruct (Z.even (Qfloor x)); lia); exfalso; lra.
Qed.

Lemma pow10_pos (d : nat) : 0 < pow10 d.
Proof.
  unfold pow10. change 0 with (inject_Z 0). rewrite <- Zlt_Qlt.
  apply Z.pow_pos_nonneg; lia.
Qed.

(** The rounded value is a multiple of [10^-d] ... *)
Lemma np_round_scaled (x : Q) (d : nat) :
  np_round x d * pow10 d == inject_Z (rint (x * pow10 d)).
Proof.
  unfold np_round. pose proof (pow10_pos d). field. lra.
Qed.

(** ... at most half a unit in the [d]-th decimal place from [x]. *)
Lemma np_round_close (x : Q) (d : nat) :
  Qabs (np_round x d - x) <= (1 # 2) / pow10 d.
Proof.
  pose proof (pow10_pos d) as Hp.
  pose proof (rint_close (x * pow10 d)) as [Hl Hu].
  pose proof (np_round_scaled x d) as Hs.
  apply Qle_shift_div_l; [exact Hp|].
  assert (E : Qabs (np_round x d - x) * pow10 d ==
              Qabs (inject_Z (rint (x * pow10 d)) - x * pow10 d)).
  { transitivity (Qabs ((np_round x d - x) * pow10 d)).
    - rewrite Qabs_Qmult. rewrite (Qabs_pos (pow10 d)) by lra. reflexivity.
    - apply Qabs_wd. rewrite <- Hs. ring. }
  rewrite E. apply Qabs_Qle_condition. split; lra.
Qed.

Lemma np_round_monotone (x y : Q) (d : nat) :
  x <= y -> np_round x d <= np_round y d.
Proof.
  intros Hxy. pose proof (pow10_pos d) as Hp.
  unfold np_round. apply Qle_shift_div_l; [exact Hp|].
  assert (Hm : (rint (x * pow10 d) <= rint (y * pow10 d))%Z).
  { apply rint_monotone. nra. }
  rewrite Zle_Qle in Hm.
  assert (E : inject_Z (rint (x * pow10 d)) / pow10 d * pow10 d ==
              inject_Z (rint (x * pow10 d))) by (field; lra).
  rewrite E. exact Hm.
Qed.

(** ** Finite doubles *)

Lemma Prim2SF_zero : Prim2SF 0%float = S754_zero false.
Proof. reflexivity. Qed.

Lemma significand_pos (m : positive) (e : Z) : 0 < inject_Z (Z.pos m) * 2 ^ e.
Proof.
  apply Qmult_pos.
  - change 0 with (inject_Z 0). rewrite <- Zlt_Qlt. lia.
  - apply Qpower_0_lt. reflexivity.
Qed.

(** The guard [step <= 0] of the source, on a finite double, is the sign
    of the rational it is. *)
Lemma step_guard_false (x : double) :
  (bits x <=? 0)%float = false <-> 0 < value x.
Proof.
  destruct x as [b Hb]. unfold value, Binary64.to_Q. simpl.
  rewrite leb_spec, Prim2SF_zero.
  unfold Binary64.is_finite in Hb.
  destruct (Prim2SF b) as [s| | |s m e]; try discriminate.
  - cbn. split; [discriminate | intros H; lra].
  - pose proof (significand_pos m e) as Hq.
    destruct s; cbn; split; intros H; try reflexivity; try discriminate; lra.
Qed.

Lemma step_guard_true (x : double) :
  (bits x <=? 0)%float = true <-> value x <= 0.
Proof.
  pose proof (step_guard_false x) as H.
  destruct (bits x <=? 0)%float.
  - split; [|reflexivity]. intros _.
    destruct (Qlt_le_dec 0 (value x)) as [Hp|Hn]; [|exact Hn].
    apply H in Hp. discriminate.
  - split; [discriminate|]. intros Hn.
    assert (0 < value x) by now apply H. lra.
Qed.

Lemma int_errors (x : PrimFloat.float) (e : exn) :
  Binary64.int x = Raise e ->
  e = OverflowError "cannot convert float infinity to integer" \/
  e = ValueError "cannot convert float NaN to integer".
Proof.
  unfold Binary64.int. destruct (Prim2SF x); intros [= <-]; auto.
Qed.

Lemma ltv_count_errors (start stop step : PrimFloat.float) (e : exn) :
  Binary64.ltv_count start stop step = Raise e ->
  e = OverflowError "cannot convert float infinity to integer" \/
  e = ValueError "cannot convert float NaN to integer".
Proof.
  unfold Binary64.ltv_count.
  destruct (Binary64.int _) as [f|e'] eqn:E; [discriminate|].
  intros [= <-]. now apply int_errors in E.
Qed.

(** ** The grid builder *)

Lemma ltv_grid_ok (start stop step : double) (n : Z) :
  0 < value step ->
  Binary64.ltv_count (bits start) (bits stop) (bits step) = Ok n ->
  ltv_grid start stop step =
  Ok (grid_point (value start) (value step) <$> seq 0 (Z.to_nat n)).
Proof.
  intros Hs Hn. unfold ltv_grid, np_arange.
  apply step_guard_false in Hs. rewrite Hs, Hn. cbn [bind].
  now rewrite !map_map.
Qed.

Lemma ltv_grid_inv (start stop step : double) (grid : list Q) :
  ltv_grid start stop step = Ok grid ->
  0 < value step /\
  exists n,
    Binary64.ltv_count (bits start) (bits stop) (bits step) = Ok n /\
    grid = grid_point (value start) (value step) <$> seq 0 (Z.to_nat n).
Proof.
  intros H.
  assert (Hs : 0 < value step).
  { apply step_guard_false. unfold ltv_grid in H.
    destruct (bits step <=? 0)%float; [discriminate | reflexivity]. }
  split; [exact Hs|].
  destruct (Binary64.ltv_count (bits start) (bits stop) (bits step))
    as [n|e] eqn:En.
  - exists n. split; [reflexivity|].
    rewrite (ltv_grid_ok _ _ _ n Hs En) in H. now injection H as <-.
  - unfold ltv_grid in H. apply step_guard_false in Hs.
    rewrite Hs, En in H. discriminate.
Qed.

Lemma ltv_grid_range_error_iff (start stop step : double) :
  ltv_grid start stop step = Raise InvalidRangeError_step <-> value step <= 0.
Proof.
  split.
  - intros H. destruct (Qlt_le_dec 0 (value step)) as [Hp|Hn]; [|exact Hn].
    exfalso. unfold ltv_grid in H. apply step_guard_false in Hp.
    rewrite Hp in H.
    destruct (Binary64.ltv_count (bits start) (bits stop) (bits step))
      as [n|e] eqn:En; [discriminate|].
    apply ltv_count_errors in En. injection H as ->.
    destruct En as [En|En]; discriminate.
  - intros H. unfold ltv_grid. apply step_guard_true in H. now rewrite H.
Qed.

Lemma grid_point_monotone (start step : Q) (i j : nat) :
  0 < step -> (i <= j)%nat -> grid_point start step i <= grid_point start step j.
Proof.
  intros Hs Hij. apply np_round_monotone.
  assert (inject_Z (Z.of_nat i) <= inject_Z (Z.of_nat j))
    by (rewrite <- Zle_Qle; lia).
  nra.
Qed.

(** The grid of this file and the grid with every operation on binary64
    agree on the outcome: the same error, or the same number of points. *)
Lemma ltv_grid_same_length (start stop step : double) :
  match ltv_grid start stop step,
        Binary64.ltv_grid (bits start) (bits stop) (bits step) with
  | Ok g, Ok g64 => length g = length g64
  | Raise e, Raise e64 => e = e64
  | _, _ => False
  end.
Proof.
  unfold ltv_grid, Binary64.ltv_grid.
  destruct (bits step <=? 0)%float; [reflexivity|].
  destruct (Binary64.ltv_count (bits start) (bits stop) (bits step)) as [n|e];
    cbn [bind]; [|reflexivity].
  unfold np_arange, Binary64.np_arange.
  now rewrite !length_map, !length_seq.
Qed.

(** C5, as stated, fails twice.  On a descending range the count
    [floor((stop - start)/step + 1e-12) + 1] is [-1] for [(1, 0, 0.5)], and
    the grid is empty.  And the count is the one binary64 gives, not the
    exact one: for [(0, 8193 - 2^-39, 1)] the exact formula gives 8193 and
    the grid has 8194 points. *)
Lemma ltv_grid_count_is_not_the_exact_formula :
  ~ (exists grid,
       ltv_grid d1 d0 d0_5 = Ok grid /\
       Z.of_nat (length grid) = exact_count (value d1) (value d0) (value d0_5)) /\
  ~ (exists grid,
       ltv_grid d0 d8193_less d1 = Ok grid /\
       Z.of_nat (length grid) =
         exact_count (value d0) (value d8193_less) (value d1)).
Proof.
  split.
  - intros (grid & Hg & Hlen).
    apply ltv_grid_inv in Hg as (_ & n & Hn & ->).
    vm_compute in Hn. injection Hn as <-.
    vm_compute in Hlen. discriminate.
  - intros (grid & Hg & Hlen).
    apply ltv_grid_inv in Hg as (_ & n & Hn & ->).
    vm_compute in Hn. injection Hn as <-.
    rewrite length_fmap, length_seq in Hlen.
    vm_compute in Hlen. discriminate.
Qed.

(** C5, amended.  For finite [start], [stop] and [step > 0] whose count
    [n = int(floor((stop - start)/step + 1e-12)) + 1] is computed in
    binary64 (the quotient is finite), the grid has [max(0, n)] values; the
    [k]-th is [start + k * step] rounded to 10 decimal places (a multiple of
    [1e-10] at most [5e-11] away); the values are in ascending
    (non-decreasing) order.  For [step <= 0] the range error is raised.
    [ltv_grid(0.5, 0.8, 0.05)] is the 7 points [0.50, 0.55, ..., 0.80]. *)
Theorem ltv_grid_values (start stop step : double) :
  (0 < value step ->
   forall n : Z,
     Binary64.ltv_count (bits start) (bits stop) (bits step) = Ok n ->
     exists grid,
       ltv_grid start stop step = Ok grid /\
       Z.of_nat (length grid) = Z.max 0 n /\
       (forall k : nat, (k < length grid)%nat ->
          exists v,
            grid !! k = Some v /\
            v = np_round (value start + value step * inject_Z (Z.of_nat k)) 10 /\
            v * pow10 10 ==
              inject_Z (rint ((value start + value step * inject_Z (Z.of_nat k))
                              * pow10 10)) /\
            Qabs (v - (value start + value step * inject_Z (Z.of_nat k)))
              <= (1 # 2) / pow10 10) /\
       (forall (i j : nat) (vi vj : Q),
          (i < j)%nat -> grid !! i = Some vi -> grid !! j = Some vj ->
          vi <= vj)) /\
  (value step <= 0 -> ltv_grid start stop step = Raise InvalidRangeError_step) /\
  (exists grid,
     ltv_grid d0_5 d0_8 d0_05 = Ok grid /\
     Forall2 Qeq grid
       [50 # 100; 55 # 100; 60 # 100; 65 # 100; 70 # 100; 75 # 100; 80 # 100]).
Proof.
  split; [|split].
  - intros Hs n Hn. eexists. split; [now apply (ltv_grid_ok _ _ _ n)|].
    rewrite length_fmap, length_seq.
    split; [lia|]. split.
    + intros k Hk. eexists. split; [|split; [reflexivity|split]].
      * rewrite list_lookup_fmap, lookup_seq_lt by exact Hk. reflexivity.
      * apply np_round_scaled.
      * apply np_round_close.
    + intros i j vi vj Hij Hi Hj.
      rewrite list_lookup_fmap in Hi, Hj.
      destruct (seq 0 (Z.to_nat n) !! i) as [i'|] eqn:Ei; [|discriminate].
      destruct (seq 0 (Z.to_nat n) !! j) as [j'|] eqn:Ej; [|discriminate].
      apply lookup_seq in Ei as [-> _]. apply lookup_seq in Ej as [-> _].
      simpl in Hi, Hj. injection Hi as <-. injection Hj as <-.
      apply grid_point_monotone; [exact Hs | lia].
  - apply ltv_grid_range_error_iff.
  - eexists. split; [vm_compute; reflexivity|].
    repeat constructor.
Qed.

Lemma ltv_grid_values_witness :
  (exists grid, ltv_grid d0_5 d0_8 d0_05 = Ok grid /\
                Z.of_nat (length grid) = Z.max 0 7) /\
  ltv_grid d0_5 d0_8 d0 = Raise InvalidRangeError_step.
Proof.
  split.
  - destruct (ltv_grid_values d0_5 d0_8 d0_05) as [H _].
    destruct (H eq_refl 7%Z eq_refl) as (grid & Hg & Hlen & _).
    exists grid. split; [exact Hg | exact Hlen].
  - apply (ltv_grid_values d0_5 d0_8 d0). vm_compute. discriminate.
Defined.

(** C10, as stated, fails twice.  With [step = 3] and
    [start = 7427640235712282 * 2^-91] above [stop = 0], the exact count
    [floor((stop - start)/step + 1e-12) + 1] is 0, yet binary64 counts one
    point and the grid is not empty.  And with the least positive double as
    step the quotient [(0 - 1)/step] overflows: the count is far below 0,
    and [int] raises [OverflowError]. *)
Lemma ltv_grid_not_empty_on_nonpositive_exact_count :
  (0 < value d3 /\
   (exact_count (value d3e_12) (value d0) (value d3) <= 0)%Z /\
   ltv_grid d3e_12 d0 d3 <> Ok []) /\
  (0 < value dmin /\
   (exact_count (value d1) (value d0) (value dmin) <= 0)%Z /\
   ltv_grid d1 d0 dmin <> Ok []).
Proof.
  split; (split; [reflexivity|]); (split; [vm_compute; discriminate|]).
  - intros H. apply ltv_grid_inv in H as (_ & n & Hn & Hg).
    vm_compute in Hn. injection Hn as <-. discriminate.
  - intros H. apply ltv_grid_inv in H as (_ & n & Hn & _).
    vm_compute in Hn. discriminate.
Qed.

(** C10, amended.  For finite [start], [stop] and [step > 0] whose count
    [n = int(floor((stop - start)/step + 1e-12)) + 1], computed in binary64,
    is at most 0, the grid is the empty sequence and no error is raised; the
    range error is raised only for [step <= 0]. *)
Theorem ltv_grid_empty_on_descending_range (start stop step : double) :
  (0 < value step ->
   forall n : Z,
     Binary64.ltv_count (bits start) (bits stop) (bits step) = Ok n ->
     (n <= 0)%Z ->
     ltv_grid start stop step = Ok []) /\
  (ltv_grid start stop step = Raise InvalidRangeError_step <-> value step <= 0).
Proof.
  split; [|apply ltv_grid_range_error_iff].
  intros Hs n Hn Hle. rewrite (ltv_grid_ok _ _ _ n Hs Hn).
  now rewrite Z2Nat.nonpos.
Qed.

Lemma ltv_grid_empty_on_descending_range_witness :
  ltv_grid d0_8 d0_5 d0_05 = Ok [].
Proof.
  apply (ltv_grid_empty_on_descending_range d0_8 d0_5 d0_05)
    with (n := (-5)%Z); vm_compute; (reflexivity || discriminate).
Defined.

(** On binary64 floats [ltv_grid(0.5, 0.8, 0.05)] is the same 7 points, each
    the float nearest to the decimal written. *)
Lemma ltv_grid_binary64_example :
  Binary64.ltv_grid 0.5%float 0.8%float 0.05%float =
  Ok [0.5; 0.55; 0.6; 0.65; 0.7; 0.75; 0.8]%float.
Proof. vm_compute. reflexivity. Qed.

(** ** The yield resolver *)

Lemma contains_Some (d : gmap string pyval) (k : string) (v : pyval) :
  d !! k = Some v -> contains d k = true.
Proof. intros H. unfold contains. apply bool_decide_eq_true. eauto. Qed.

Lemma contains_None (d : gmap string pyval) (k : string) :
  d !! k = None -> contains d k = false.
Proof.
  intros H. unfold contains. apply bool_decide_eq_false.
  rewrite H. intros [v Hv]. discriminate.
Qed.

Lemma implied_gross_yield_explicit (preset : gmap string pyval) (gy : Q) :
  preset !! "gross_yield" = Some (PyNum gy) ->
  implied_gross_yield preset =
  if Qleb gy 0 then Raise InvalidPresetError_yield else Ok gy.
Proof.
  intros H. unfold implied_gross_yield, getitem.
  rewrite (contains_Some _ _ _ H), H. reflexivity.
Qed.

Lemma implied_gross_yield_fallback (preset : gmap string pyval) :
  no_explicit_yield preset ->
  implied_gross_yield preset =
  if contains preset "purchase_price_gbp" && contains preset "annual_rent_gbp" then
    do pv <- getitem preset "purchase_price_gbp";
    do price <- float pv;
    do rv <- getitem preset "annual_rent_gbp";
    do rent <- float rv;
    if Qleb price 0 || Qleb rent 0 then Raise InvalidPresetError_pair
    else Ok (rent / price)
  else Raise InvalidPresetError_missing.
Proof.
  intros [H|H]; unfold implied_gross_yield at 1.
  - rewrite (contains_None _ _ H). reflexivity.
  - rewrite (contains_Some _ _ _ H). unfold getitem at 1. rewrite H. reflexivity.
Qed.

(** C6, as stated, fails on a preset whose explicit gross yield is not
    positive and whose price and rent are: the claim gives rent/price, the
    resolver raises the preset error without looking at the pair. *)
Lemma implied_gross_yield_rejects_nonpositive_yield :
  preset_zero_yield_with_pair !! "gross_yield" = Some (PyNum 0) /\
  preset_zero_yield_with_pair !! "purchase_price_gbp" = Some (PyNum 500000) /\
  preset_zero_yield_with_pair !! "annual_rent_gbp" = Some (PyNum 30000) /\
  implied_gross_yield preset_zero_yield_with_pair = Raise InvalidPresetError_yield /\
  ~ (exists y, implied_gross_yield preset_zero_yield_with_pair = Ok y /\
               y == 30000 / 500000).
Proof.
  assert (E : implied_gross_yield preset_zero_yield_with_pair =
              Raise InvalidPresetError_yield) by (vm_compute; reflexivity).
  repeat split; try (vm_compute; reflexivity); try exact E.
  intros (y & Hy & _). rewrite E in Hy. discriminate.
Qed.

(** C6, amended.  A preset that carries a gross yield (not [None]) resolves
    to it when it is positive and to the preset error when it is not,
    whatever price and rent it carries.  A preset without a gross yield
    (absent or [None]) that carries a price and a rent resolves to
    rent/price when both are positive and to the preset error when one is
    not; without one of the two keys it resolves to the preset error. *)
Theorem implied_gross_yield_resolution (preset : gmap string pyval) :
  (forall gy : Q,
     preset !! "gross_yield" = Some (PyNum gy) ->
     (0 < gy -> implied_gross_yield preset = Ok gy) /\
     (gy <= 0 -> implied_gross_yield preset = Raise InvalidPresetError_yield)) /\
  (no_explicit_yield preset ->
     (forall price rent : Q,
        preset !! "purchase_price_gbp" = Some (PyNum price) ->
        preset !! "annual_rent_gbp" = Some (PyNum rent) ->
        (0 < price -> 0 < rent -> implied_gross_yield preset = Ok (rent / price)) /\
        (price <= 0 \/ rent <= 0 ->
           implied_gross_yield preset = Raise InvalidPresetError_pair)) /\
     (preset !! "purchase_price_gbp" = None \/ preset !! "annual_rent_gbp" = None ->
        implied_gross_yield preset = Raise InvalidPresetError_missing)).
Proof.
  split.
  - intros gy H. rewrite (implied_gross_yield_explicit _ _ H). split; intros Hgy.
    + apply Qleb_gt in Hgy. now rewrite Hgy.
    + apply Qleb_le in Hgy. now rewrite Hgy.
  - intros Hno. rewrite (implied_gross_yield_fallback _ Hno). split.
    + intros price rent Hp Hr.
      rewrite (contains_Some _ _ _ Hp), (contains_Some _ _ _ Hr).
      unfold getitem. rewrite Hp, Hr. simpl. split.
      * intros Hpp Hrp. apply Qleb_gt in Hpp, Hrp. now rewrite Hpp, Hrp.
      * intros [Hn|Hn]; apply Qleb_le in Hn; rewrite Hn;
          [reflexivity | now rewrite orb_true_r].
    + intros [H|H]; rewrite (contains_None _ _ H);
        [reflexivity | now rewrite andb_false_r].
Qed.

Lemma implied_gross_yield_resolution_witness :
  implied_gross_yield preset_explicit = Ok (6 # 100) /\
  implied_gross_yield preset_zero_yield_with_pair = Raise InvalidPresetError_yield /\
  implied_gross_yield preset_priced = Ok (30000 / 500000) /\
  implied_gross_yield (∅ : gmap string pyval) = Raise InvalidPresetError_missing.
Proof.
  split; [|split; [|split]].
  - destruct (implied_gross_yield_resolution preset_explicit) as [H _].
    apply (H (6 # 100)); vm_compute; reflexivity.
  - destruct (implied_gross_yield_resolution preset_zero_yield_with_pair) as [H _].
    apply (H 0); vm_compute; [reflexivity | discriminate].
  - destruct (implied_gross_yield_resolution preset_priced) as [_ H].
    destruct H as [H _]; [left; vm_compute; reflexivity|].
    apply (H 500000 30000); vm_compute; reflexivity.
  - destruct (implied_gross_yield_resolution ∅) as [_ H].
    destruct H as [_ H]; [left; vm_compute; reflexivity|].
    apply H. left. vm_compute. reflexivity.
Defined.

(** ** Weight normalisation *)

Lemma np_sum_nonneg (ws : list Q) :
  Forall (fun w => 0 <= w) ws -> 0 <= np_sum ws.
Proof.
  induction 1 as [|w ws Hw _ IH]; simpl; [apply Qle_refl | lra].
Qed.

Lemma np_sum_pos (ws : list Q) :
  Forall (fun w => 0 <= w) ws -> Exists (fun w => ~ w == 0) ws -> 0 < np_sum ws.
Proof.
  intros Hall Hex. induction Hex as [w ws Hw | w ws Hex IH]; simpl;
    apply Forall_cons in Hall as [Hw0 Hall].
  - pose proof (np_sum_nonneg ws Hall) as Hs.
    destruct (Qlt_le_dec 0 w) as [Hlt|Hle]; [lra|].
    exfalso. apply Hw. lra.
  - specialize (IH Hall). lra.
Qed.

Lemma np_sum_scaled (ws : list Q) (s : Q) :
  ~ s == 0 -> np_sum (map (fun w => w / s) ws) == np_sum ws / s.
Proof.
  intros Hs. induction ws as [|w ws IH]; simpl.
  - field. exact Hs.
  - rewrite IH. field. exact Hs.
Qed.

Lemma np_any_lt_true (ws : list Q) (b : Q) :
  np_any_lt ws b = true <-> Exists (fun w => w < b) ws.
Proof.
  unfold np_any_lt. rewrite existsb_exists, Exists_exists. split.
  - intros (w & Hin & Hw). exists w. rewrite list_elem_of_In.
    split; [exact Hin | now apply Qltb_lt].
  - intros (w & Hin & Hw). exists w. rewrite <- list_elem_of_In.
    split; [exact Hin | now apply Qltb_lt].
Qed.

Lemma np_any_lt_false (ws : list Q) (b : Q) :
  np_any_lt ws b = false <-> Forall (fun w => b <= w) ws.
Proof.
  rewrite <- not_true_iff_false, np_any_lt_true. split.
  - intros H. apply Forall_forall. intros w Hin.
    destruct (Qlt_le_dec w b) as [Hlt|Hle]; [|exact Hle].
    exfalso. apply H. apply Exists_exists. eauto.
  - intros H Hex. apply Exists_exists in Hex as (w & Hin & Hw).
    rewrite Forall_forall in H. specialize (H w Hin). lra.
Qed.

Lemma shape_test_false (values weights : ndarray) :
  negb (ndim values =? 1)%nat || negb (ndim weights =? 1)%nat
    || negb (size values =? size weights)%nat = false
  <-> shape_ok values weights.
Proof.
  unfold shape_ok.
  rewrite !orb_false_iff, !negb_false_iff, !Nat.eqb_eq. tauto.
Qed.

(** On well-shaped input with non-negative weights and a positive sum the
    function returns the values and the weights divided by their sum. *)
Lemma normalise_weights_ok (values weights : ndarray) :
  shape_ok values weights ->
  Forall (fun w => 0 <= w) (data weights) ->
  0 < np_sum (data weights) ->
  normalise_weights values weights =
  Ok (values,
      {| shape := shape weights;
         data := map (fun w => w / np_sum (data weights)) (data weights) |}).
Proof.
  intros Hsh Hnn Hpos. unfold normalise_weights.
  apply shape_test_false in Hsh. rewrite Hsh.
  apply np_any_lt_false in Hnn. rewrite Hnn.
  apply Qleb_gt in Hpos. now rewrite Hpos.
Qed.

(** C8.  On equal-length one-dimensional values and weights, with weights
    non-negative and not all zero, [normalise_weights] returns weights that
    sum to exactly 1 (the values unchanged); it raises, and then the
    distribution error, exactly when the shapes are not one-dimensional of
    equal length, or some weight is negative, or the weights sum to zero. *)
Theorem normalise_weights_contract (values weights : ndarray) :
  (shape_ok values weights ->
   Forall (fun w => 0 <= w) (data weights) ->
   Exists (fun w => ~ w == 0) (data weights) ->
   exists weights',
     normalise_weights values weights = Ok (values, weights') /\
     shape weights' = shape weights /\
     np_sum (data weights') == 1) /\
  (raises (normalise_weights values weights) <->
   ~ shape_ok values weights \/
   Exists (fun w => w < 0) (data weights) \/
   np_sum (data weights) == 0) /\
  (forall e, normalise_weights values weights = Raise e ->
             InvalidDistributionError e).
Proof.
  split; [|split].
  - intros Hsh Hnn Hnz.
    pose proof (np_sum_pos _ Hnn Hnz) as Hpos.
    eexists. split; [now apply normalise_weights_ok|].
    split; [reflexivity|]. simpl.
    rewrite np_sum_scaled by lra. field. lra.
  - unfold raises, normalise_weights.
    destruct (negb (ndim values =? 1)%nat || negb (ndim weights =? 1)%nat
              || negb (size values =? size weights)%nat) eqn:Esh.
    { split; [|eauto]. intros _. left. intros H.
      apply shape_test_false in H. congruence. }
    apply shape_test_false in Esh.
    destruct (np_any_lt (data weights) 0) eqn:Eneg.
    { split; [|eauto]. intros _. right. left. now apply np_any_lt_true. }
    pose proof Eneg as Hnn. apply np_any_lt_false in Hnn.
    pose proof (np_sum_nonneg _ Hnn) as Hs0.
    destruct (Qleb (np_sum (data weights)) 0) eqn:Es.
    { split; [|eauto]. intros _. right. right. apply Qleb_le in Es. lra. }
    apply Qleb_gt in Es. split; [intros [e He]; discriminate|].
    intros [H|[H|H]]; exfalso.
    + now apply H.
    + apply np_any_lt_true in H. congruence.
    + lra.
  - intros e. unfold normalise_weights, InvalidDistributionError.
    repeat match goal with |- context [if ?b then _ else _] => destruct b end;
      intros H; inversion H; auto.
Qed.

Lemma normalise_weights_contract_witness :
  (exists weights',
     normalise_weights (array1 [0; 100; 200]) (array1 [5; 3; 2])
       = Ok (array1 [0; 100; 200], weights') /\
     shape weights' = [3%nat] /\
     np_sum (data weights') == 1) /\
  raises (normalise_weights (array1 [0; 100]) (array1 [0; 0])).
Proof.
  split.
  - destruct (normalise_weights_contract (array1 [0; 100; 200]) (array1 [5; 3; 2]))
      as [H _].
    apply H.
    + vm_compute. auto.
    + repeat constructor; vm_compute; discriminate.
    + constructor. vm_compute. discriminate.
  - destruct (normalise_weights_contract (array1 [0; 100]) (array1 [0; 0]))
      as (_ & H & _).
    apply H. right. right. vm_compute. reflexivity.
Defined.

(** ** The distribution evaluator *)

Lemma np_sum_app (xs ys : list Q) : np_sum (xs ++ ys) == np_sum xs + np_sum ys.
Proof.
  induction xs as [|x xs IH]; simpl; [ring | rewrite IH; ring].
Qed.

Lemma drop_cons_inv {A : Type} (n : nat) (l : list A) (x : A) (rest : list A) :
  drop n l = x :: rest -> l !! n = Some x /\ drop (S n) l = rest.
Proof.
  revert l. induction n as [|n IH]; intros [|y l] H; simpl in *; try discriminate.
  - injection H as -> ->. split; reflexivity.
  - apply IH. exact H.
Qed.

Section Evaluator.

Variable model : CashflowModel.
Variables gross_rent debt base_rate min_dscr min_cashflow : Q.

Local Abbreviation rate_of := (scenario_rate base_rate).
Local Abbreviation dscr_of := (dscr_value model gross_rent debt base_rate).
Local Abbreviation failed :=
  (pair_failed model gross_rent debt base_rate min_dscr min_cashflow).
Local Abbreviation row_mass :=
  (row_failure_mass model gross_rent debt base_rate min_dscr min_cashflow).
Local Abbreviation joint_mass :=
  (joint_failure_mass model gross_rent debt base_rate min_dscr min_cashflow).
Local Abbreviation inner :=
  (inner_body model gross_rent debt base_rate min_dscr min_cashflow).
Local Abbreviation outer :=
  (outer_body model gross_rent debt base_rate min_dscr min_cashflow).
Local Abbreviation positive := (positive_interest debt base_rate).

Lemma joint_failure_mass_cons occ po occs shocks :
  joint_mass ((occ, po) :: occs) shocks ==
  row_mass occ po shocks + joint_mass occs shocks.
Proof.
  unfold joint_failure_mass, row_failure_mass. simpl.
  rewrite List.filter_app, map_app, np_sum_app.
  apply Qplus_comp; [|reflexivity].
  induction shocks as [|[shock ps] shocks IH]; simpl; [reflexivity|].
  destruct (failed occ shock); simpl; rewrite IH; reflexivity.
Qed.

Lemma dscr_scenario occ shock_bp :
  positive shock_bp ->
  Cashflow.dscr model gross_rent occ (rate_of shock_bp) debt =
  Ok (dscr_of occ shock_bp).
Proof. intros H. now apply dscr_positive_interest. Qed.

Lemma dscr_scenario_raises occ shock_bp :
  ~ positive shock_bp ->
  Cashflow.dscr model gross_rent occ (rate_of shock_bp) debt =
  Raise ConfigurationError.
Proof.
  intros H. unfold Cashflow.dscr, Cashflow.interest.
  assert (Hn : rate_of shock_bp * debt <= 0) by (unfold positive_interest in H; lra).
  apply Qleb_le in Hn. now rewrite Hn.
Qed.

Lemma inner_loop_sum (joint_w : list (list Q)) (i : nat) (occ po : Q)
    (row : list Q) (svs qs : list Q) :
  joint_w !! i = Some row ->
  length svs = length qs ->
  Forall positive svs ->
  forall (j0 : nat) (acc : Q),
    drop j0 row = map (Qmult po) qs ->
    exists p,
      for_each (enumerate_from j0 svs) (inner joint_w i occ) acc = Ok p /\
      p == acc + row_mass occ po (zip svs qs).
Proof.
  intros Hrow. revert qs.
  induction svs as [|shock svs IH]; intros [|q qs] Hlen Hpos j0 acc Hdrop;
    simpl in Hlen; try discriminate.
  - exists acc. split; [reflexivity|]. unfold row_failure_mass. simpl. ring.
  - apply Forall_cons in Hpos as [Hp Hpos].
    simpl in Hdrop. apply drop_cons_inv in Hdrop as [Hj Hdrop].
    assert (Hlen' : length svs = length qs) by lia.
    simpl. fold (rate_of shock). rewrite (dscr_scenario occ shock Hp). simpl.
    fold (failed occ shock).
    unfold row_failure_mass. simpl.
    destruct (failed occ shock) eqn:Ef.
    + unfold getitem2. rewrite Hrow, Hj. simpl.
      destruct (IH qs Hlen' Hpos (S j0) (acc + po * q) Hdrop) as (p & Hp1 & Hp2).
      exists p. split; [exact Hp1|]. rewrite Hp2.
      unfold row_failure_mass. simpl. ring.
    + destruct (IH qs Hlen' Hpos (S j0) acc Hdrop) as (p & Hp1 & Hp2).
      exists p. split; [exact Hp1|]. rewrite Hp2. reflexivity.
Qed.

Lemma inner_loop_raises (joint_w : list (list Q)) (i : nat) (occ po : Q)
    (row : list Q) (svs qs : list Q) :
  joint_w !! i = Some row ->
  length svs = length qs ->
  Exists (fun shock => ~ positive shock) svs ->
  forall (j0 : nat) (acc : Q),
    drop j0 row = map (Qmult po) qs ->
    for_each (enumerate_from j0 svs) (inner joint_w i occ) acc =
    Raise ConfigurationError.
Proof.
  intros Hrow. revert qs.
  induction svs as [|shock svs IH]; intros [|q qs] Hlen Hbad j0 acc Hdrop;
    simpl in Hlen; try discriminate.
  - inversion Hbad.
  - simpl in Hdrop. apply drop_cons_inv in Hdrop as [Hj Hdrop].
    assert (Hlen' : length svs = length qs) by lia.
    simpl. fold (rate_of shock).
    destruct (Qlt_le_dec 0 (rate_of shock * debt)) as [Hp|Hn].
    + rewrite (dscr_scenario occ shock Hp). simpl.
      apply Exists_cons in Hbad as [Hbad|Hbad]; [contradiction|].
      destruct (_ || _).
      * unfold getitem2. rewrite Hrow, Hj. simpl. now apply (IH qs).
      * now apply (IH qs).
    + rewrite dscr_scenario_raises; [reflexivity|].
      unfold positive_interest. lra.
Qed.

Lemma outer_loop_sum (joint_w : list (list Q)) (svs qs : list Q)
    (ovs pos : list Q) :
  length svs = length qs ->
  Forall positive svs ->
  length ovs = length pos ->
  forall (i0 : nat) (acc : Q),
    drop i0 joint_w = map (fun po => map (Qmult po) qs) pos ->
    exists p,
      for_each (enumerate_from i0 ovs) (outer joint_w svs) acc = Ok p /\
      p == acc + joint_mass (zip ovs pos) (zip svs qs).
Proof.
  intros Hlen Hpos. revert pos.
  induction ovs as [|occ ovs IH]; intros [|po pos] Hlo i0 acc Hdrop;
    simpl in Hlo; try discriminate.
  - exists acc. split; [reflexivity|]. unfold joint_failure_mass. simpl. ring.
  - simpl in Hdrop. apply drop_cons_inv in Hdrop as [Hi Hdrop].
    assert (Hlo' : length ovs = length pos) by lia.
    destruct (inner_loop_sum joint_w i0 occ po _ svs qs Hi Hlen Hpos 0%nat acc
                eq_refl) as (p1 & Hp1 & Hp1eq).
    destruct (IH pos Hlo' (S i0) p1 Hdrop) as (p & Hp & Hpeq).
    exists p. split.
    + simpl. unfold enumerate. rewrite Hp1. simpl. exact Hp.
    + rewrite Hpeq, Hp1eq. simpl zip. rewrite joint_failure_mass_cons. ring.
Qed.

Lemma outer_loop_raises (joint_w : list (list Q)) (svs qs : list Q)
    (ovs pos : list Q) :
  length svs = length qs ->
  Exists (fun shock => ~ positive shock) svs ->
  length ovs = length pos ->
  ovs <> [] ->
  forall acc : Q,
    joint_w = map (fun po => map (Qmult po) qs) pos ->
    for_each (enumerate ovs) (outer joint_w svs) acc =
    Raise ConfigurationError.
Proof.
  intros Hlen Hbad Hlo Hne acc Hj.
  destruct ovs as [|occ ovs]; [congruence|].
  destruct pos as [|po pos]; [discriminate|].
  simpl. unfold enumerate.
  rewrite (inner_loop_raises joint_w 0 occ po (map (Qmult po) qs) svs qs);
    try reflexivity; try assumption.
  rewrite Hj. reflexivity.
Qed.

End Evaluator.

Lemma valid_distribution_length (values weights : ndarray) :
  valid_distribution values weights ->
  length (data values) = length (data weights).
Proof.
  intros (Hv & Hw & (_ & _ & Hs) & _). unfold wf_array in *. congruence.
Qed.

Lemma valid_distribution_nonempty (values weights : ndarray) :
  valid_distribution values weights -> data values <> [].
Proof.
  intros H E. pose proof (valid_distribution_length _ _ H) as Hl.
  destruct H as (_ & _ & _ & _ & Hpos).
  rewrite E in Hl. simpl in Hl. symmetry in Hl.
  apply length_zero_iff_nil in Hl. rewrite Hl in Hpos. simpl in Hpos. lra.
Qed.

(** After the two normalisations the evaluator is the double loop over the
    outer product of the renormalised weights. *)
Lemma failure_probability_loops model gross_rent debt base_rate
    shock_bp_values shock_bp_weights occ_values occ_weights min_dscr min_cashflow :
  valid_distribution shock_bp_values shock_bp_weights ->
  valid_distribution occ_values occ_weights ->
  failure_probability_over_distribution model gross_rent debt base_rate
    shock_bp_values shock_bp_weights occ_values occ_weights min_dscr min_cashflow =
  do fail_w <-
    for_each (enumerate (data occ_values))
      (outer_body model gross_rent debt base_rate min_dscr min_cashflow
         (np_outer (renormalised (data occ_weights))
                   (renormalised (data shock_bp_weights)))
         (data shock_bp_values)) 0;
  Ok fail_w.
Proof.
  intros (_ & _ & Hs1 & Hs2 & Hs3) (_ & _ & Ho1 & Ho2 & Ho3).
  unfold failure_probability_over_distribution.
  rewrite (normalise_weights_ok _ _ Hs1 Hs2 Hs3). simpl.
  rewrite (normalise_weights_ok _ _ Ho1 Ho2 Ho3). simpl.
  reflexivity.
Qed.

Ltac solve_forall_Q :=
  repeat first [ apply Forall_nil_2 | apply Forall_cons_2 ];
  vm_compute; (reflexivity || discriminate).

Ltac solve_valid_distribution :=
  unfold valid_distribution, wf_array, shape_ok;
  repeat split; try reflexivity; try solve_forall_Q.

(** C3, as stated, fails when a scenario has no positive interest: with a
    base rate of 5% and a shock of -500 bp the scenario rate is zero, the
    DSCR is undefined and the evaluator raises instead of returning. *)
Lemma failure_probability_raises_on_zero_rate :
  valid_distribution (array1 [-500 # 1; 100]) (array1 [1; 1]) /\
  valid_distribution (array1 [1]) (array1 [1]) /\
  ~ returns (failure_probability_over_distribution sample_model
               (7 # 100) (7 # 10) (1 # 20)
               (array1 [-500 # 1; 100]) (array1 [1; 1])
               (array1 [1]) (array1 [1]) 1 0).
Proof.
  split; [solve_valid_distribution|]. split; [solve_valid_distribution|].
  intros [p Hp]. vm_compute in Hp. discriminate.
Qed.

(** C3, amended.  For valid marginal distributions, when every scenario
    rate [base_rate + shock_bp/10000] gives a positive interest on the debt,
    the evaluator returns exactly the reference sum: over the whole
    Cartesian product of the two supports, the products of the renormalised
    weights of the pairs with DSCR below [min_dscr] or net cashflow below
    [min_cashflow].  When some scenario rate gives no positive interest it
    raises the configuration error. *)
Theorem failure_probability_is_exact_enumeration
    (model : CashflowModel) (gross_rent debt base_rate : Q)
    (shock_bp_values shock_bp_weights occ_values occ_weights : ndarray)
    (min_dscr min_cashflow : Q) :
  valid_distribution shock_bp_values shock_bp_weights ->
  valid_distribution occ_values occ_weights ->
  (Forall (fun shock_bp => 0 < (base_rate + shock_bp / 10000) * debt)
          (data shock_bp_values) ->
   exists p,
     failure_probability_over_distribution model gross_rent debt base_rate
       shock_bp_values shock_bp_weights occ_values occ_weights
       min_dscr min_cashflow = Ok p /\
     p == brute_force_failure_probability model gross_rent debt base_rate
            min_dscr min_cashflow
            (data shock_bp_values) (data shock_bp_weights)
            (data occ_values) (data occ_weights)) /\
  (Exists (fun shock_bp => (base_rate + shock_bp / 10000) * debt <= 0)
          (data shock_bp_values) ->
   failure_probability_over_distribution model gross_rent debt base_rate
     shock_bp_values shock_bp_weights occ_values occ_weights
     min_dscr min_cashflow = Raise ConfigurationError).
Proof.
  intros Hs Ho.
  pose proof (valid_distribution_length _ _ Hs) as Hls.
  pose proof (valid_distribution_length _ _ Ho) as Hlo.
  rewrite (failure_probability_loops _ _ _ _ _ _ _ _ _ _ Hs Ho).
  split.
  - intros Hpos.
    destruct (outer_loop_sum model gross_rent debt base_rate min_dscr min_cashflow
                (np_outer (renormalised (data occ_weights))
                          (renormalised (data shock_bp_weights)))
                (data shock_bp_values) (renormalised (data shock_bp_weights))
                (data occ_values) (renormalised (data occ_weights)))
      with (i0 := 0%nat) (acc := 0) as (p & Hp & Hpeq).
    + unfold renormalised. rewrite length_map. exact Hls.
    + exact Hpos.
    + unfold renormalised. rewrite length_map. exact Hlo.
    + reflexivity.
    + exists p. split.
      * unfold enumerate. rewrite Hp. reflexivity.
      * rewrite Hpeq. unfold brute_force_failure_probability. ring.
  - intros Hbad.
    rewrite (outer_loop_raises model gross_rent debt base_rate min_dscr min_cashflow
               _ (data shock_bp_values) (renormalised (data shock_bp_weights))
               (data occ_values) (renormalised (data occ_weights))).
    + reflexivity.
    + unfold renormalised. rewrite length_map. exact Hls.
    + eapply Exists_impl; [exact Hbad|].
      intros shock H Hp. unfold positive_interest, scenario_rate in Hp.
      simpl in H. lra.
    + unfold renormalised. rewrite length_map. exact Hlo.
    + now apply valid_distribution_nonempty with (weights := occ_weights).
    + reflexivity.
Qed.

Lemma failure_probability_is_exact_enumeration_witness :
  (exists p,
     failure_probability_over_distribution sample_model (7 # 100) (7 # 10) (1 # 20)
       (array1 [0; 100; 200]) (array1 [5; 3; 2])
       (array1 [1; 9 # 10]) (array1 [3; 1]) 1 0 = Ok p /\
     p == brute_force_failure_probability sample_model (7 # 100) (7 # 10) (1 # 20)
            1 0 [0; 100; 200] [5; 3; 2] [1; 9 # 10] [3; 1]) /\
  failure_probability_over_distribution sample_model (7 # 100) (7 # 10) (1 # 20)
    (array1 [-500 # 1; 100]) (array1 [1; 1])
    (array1 [1]) (array1 [1]) 1 0 = Raise ConfigurationError.
Proof.
  split.
  - apply (failure_probability_is_exact_enumeration sample_model
             (7 # 100) (7 # 10) (1 # 20)
             (array1 [0; 100; 200]) (array1 [5; 3; 2])
             (array1 [1; 9 # 10]) (array1 [3; 1]) 1 0).
    + solve_valid_distribution.
    + solve_valid_distribution.
    + simpl. solve_forall_Q.
  - apply (failure_probability_is_exact_enumeration sample_model
             (7 # 100) (7 # 10) (1 # 20)
             (array1 [-500 # 1; 100]) (array1 [1; 1])
             (array1 [1]) (array1 [1]) 1 0).
    + solve_valid_distribution.
    + solve_valid_distribution.
    + simpl. apply Exists_cons_hd. vm_compute. discriminate.
Defined.

(** ** The sweep orchestrator *)

Lemma bind_Ok_inv {A B : Type} (m : result A) (k : A -> result B) (b : B) :
  bind m k = Ok b -> exists a, m = Ok a /\ k a = Ok b.
Proof. destruct m as [a|e]; simpl; [eauto | discriminate]. Qed.

(** The rows of a loop that appends one row per element: in the order of
    the elements, after the rows already there. *)
Lemma for_each_append {A B : Type} (f : A -> result B) (xs : list A) :
  forall (acc out : list B),
    for_each xs (fun x rows => do row <- f x; Ok (rows ++ [row])) acc = Ok out ->
    exists rows, out = acc ++ rows /\ Forall2 (fun x row => f x = Ok row) xs rows.
Proof.
  induction xs as [|x xs IH]; intros acc out H; simpl in H.
  - injection H as <-. exists []. split; [now rewrite app_nil_r | constructor].
  - apply bind_Ok_inv in H as (acc' & H1 & H2).
    apply bind_Ok_inv in H1 as (row & Hrow & Hacc). injection Hacc as <-.
    apply IH in H2 as (rows & -> & Hall).
    exists (row :: rows). split; [now rewrite <- app_assoc | now constructor].
Qed.

Lemma console_snapshot_inv (rows out : list Row) :
  console_snapshot rows = Ok out -> out = rows /\ rows <> [].
Proof.
  destruct rows as [|row rows]; simpl; [discriminate|].
  intros [= <-]. split; [reflexivity | discriminate].
Qed.

Lemma sweep_row_consistent model preset_name c gross_yield base_rate min_dscr
    min_cf max_fail_prob stress_occ stress_shock_bp
    shock_bp_values shock_bp_weights occ_values occ_weights ltv row :
  sweep_row model preset_name c gross_yield base_rate min_dscr min_cf
    max_fail_prob stress_occ stress_shock_bp
    shock_bp_values shock_bp_weights occ_values occ_weights ltv = Ok row ->
  row_gross_yield row = gross_yield /\ row_ltv row = ltv /\
  row_consistent model base_rate min_dscr min_cf max_fail_prob stress_occ
    stress_shock_bp shock_bp_values shock_bp_weights occ_values occ_weights row.
Proof.
  unfold sweep_row. intros H.
  apply bind_Ok_inv in H as (D & HD & H).
  apply bind_Ok_inv in H as (stress_dscr & Hdscr & H).
  apply bind_Ok_inv in H as (p_fail & Hp & H).
  apply bind_Ok_inv in H as ([worst_cf worst_dscr] & _ & H).
  apply bind_Ok_inv in H as (max_rate & _ & H).
  injection H as <-. simpl.
  split; [reflexivity|]. split; [reflexivity|].
  exists D. simpl. repeat (split; [first [assumption | reflexivity]|]).
  split; [|split].
  - rewrite andb_true_iff. unfold Qgeb. now rewrite !Qle_bool_iff.
  - apply Qleb_le.
  - apply andb_true_iff.
Qed.

(** C4.  In every row the sweep produces, [passes_stress] holds exactly
    when the cashflow and the DSCR of the stress scenario reach their
    minima, [passes_probability] exactly when the failure probability is at
    most the allowed maximum, and [admissible] exactly when both flags
    hold. *)
Theorem sweep_rows_flags (args : Args) (assumptions : Assumptions)
    (rows : list Row) :
  main args assumptions = Ok rows ->
  Forall
    (row_consistent (run_model assumptions) (run_base_rate args assumptions)
       (cfg_min_dscr assumptions) (cfg_min_cashflow assumptions)
       (cfg_max_failure_probability assumptions)
       (cfg_stress_occupancy assumptions) (cfg_stress_rate_shock_bp assumptions)
       (cfg_shock_bp_values assumptions) (cfg_shock_bp_weights assumptions)
       (cfg_occ_values assumptions) (cfg_occ_weights assumptions))
    rows.
Proof.
  unfold main. intros H.
  apply bind_Ok_inv in H as ([preset_name preset] & _ & H).
  apply bind_Ok_inv in H as (gross_yield & _ & H).
  apply bind_Ok_inv in H as (ltvs & _ & H).
  apply bind_Ok_inv in H as (table & H & Hsnap).
  apply console_snapshot_inv in Hsnap as [-> _].
  apply for_each_append in H as (rows' & -> & Hall). simpl.
  induction Hall as [|ltv row ltvs rows' Hrow _ IH]; constructor; [|exact IH].
  apply sweep_row_consistent in Hrow as (_ & _ & Hrow). exact Hrow.
Qed.

Lemma sweep_rows_flags_witness :
  exists rows,
    main sample_args sample_assumptions = Ok rows /\
    length rows = 7%nat /\
    Forall
      (row_consistent sample_model (1 # 20) 1 0 (1 # 10) (9 # 10) 100
         (array1 [0; 100; 200]) (array1 [5; 3; 2])
         (array1 [1; 9 # 10]) (array1 [3; 1]))
      rows.
Proof.
  destruct (main sample_args sample_assumptions) as [rows|e] eqn:E;
    [|vm_compute in E; discriminate].
  exists rows. split; [reflexivity|]. split.
  - vm_compute in E. injection E as <-. reflexivity.
  - apply (sweep_rows_flags sample_args sample_assumptions rows). exact E.
Defined.


(** * Further properties of the code *)

(** ** The cashflow model *)

Lemma dscr_value_cases (self : CashflowModel) (R occ rate debt : Q) :
  0 < rate * debt ->
  exists d,
    Cashflow.dscr self R occ rate debt = Ok d /\
    ((Cashflow.noi self R occ <= 0 /\ d = 0) \/
     (0 < Cashflow.noi self R occ /\ d = Cashflow.noi self R occ / (rate * debt))).
Proof.
  intros Hi. eexists. split; [now apply dscr_positive_interest|].
  destruct (Qleb (Cashflow.noi self R occ) 0) eqn:E.
  - left. split; [now apply Qleb_le | reflexivity].
  - right. split; [now apply Qleb_gt | reflexivity].
Qed.

Lemma Qdiv_lt_iff (a b m : Q) : 0 < b -> (a / b < m <-> a < m * b).
Proof.
  intros Hb. split; intros H.
  - assert (E : a == a / b * b) by (field; lra). rewrite E. nra.
  - apply Qlt_shift_div_r; assumption.
Qed.



(** X2.  The unit price is neutral: at any positive price the normalised
    rent and debt give the same DSCR as at price 1, and a net cashflow that
    is the one at price 1 times the price. *)
Theorem price_normalisation_is_neutral
    (self : CashflowModel) (gross_yield ltv occ rate price : Q) :
  0 < price -> 0 < ltv -> ltv < 1 -> 0 < rate ->
  exists Dp D1 dp d1,
    normalised_debt_from_ltv ltv price = Ok Dp /\
    normalised_debt_from_ltv ltv 1 = Ok D1 /\
    Cashflow.dscr self (normalised_rent_from_yield gross_yield price) occ rate Dp
      = Ok dp /\
    Cashflow.dscr self (normalised_rent_from_yield gross_yield 1) occ rate D1
      = Ok d1 /\
    dp == d1 /\
    Cashflow.net_cashflow self (normalised_rent_from_yield gross_yield price)
      occ rate Dp ==
    price * Cashflow.net_cashflow self (normalised_rent_from_yield gross_yield 1)
              occ rate D1.
Proof.
  intros Hp Hl0 Hl1 Hr.
  assert (Hdebt : forall q, normalised_debt_from_ltv ltv q = Ok (ltv * q)).
  { intros q. unfold normalised_debt_from_ltv, Qgeb.
    apply Qleb_gt in Hl0. rewrite Hl0. simpl.
    destruct (Qle_bool 1 ltv) eqn:E; [|reflexivity].
    apply Qle_bool_iff in E. lra. }
  assert (Hip : 0 < rate * (ltv * price)) by (apply Qmult_pos; [|apply Qmult_pos]; lra).
  assert (Hi1 : 0 < rate * (ltv * 1)) by (apply Qmult_pos; lra).
  destruct (dscr_value_cases self (normalised_rent_from_yield gross_yield price)
              occ rate (ltv * price) Hip) as (dp & Hdp & Hcp).
  destruct (dscr_value_cases self (normalised_rent_from_yield gross_yield 1)
              occ rate (ltv * 1) Hi1) as (d1 & Hd1 & Hc1).
  exists (ltv * price), (ltv * 1), dp, d1.
  repeat (split; [first [apply Hdebt | assumption]|]).
  unfold Cashflow.net_cashflow, Cashflow.noi, Cashflow.interest,
    normalised_rent_from_yield in *.
  set (c := operating_cost_ratio self) in *.
  assert (En : (1 - c) * (gross_yield * price) * occ ==
               price * ((1 - c) * (gross_yield * 1) * occ)) by ring.
  split; [|rewrite En; ring].
  destruct Hcp as [[Hnp ->]|[Hnp ->]]; destruct Hc1 as [[Hn1 ->]|[Hn1 ->]].
  - reflexivity.
  - exfalso. rewrite En in Hnp. nra.
  - exfalso. rewrite En in Hnp. nra.
  - rewrite En. field. split; lra.
Qed.

Lemma price_normalisation_is_neutral_witness :
  exists Dp D1 dp d1,
    normalised_debt_from_ltv (7 # 10) 250000 = Ok Dp /\
    normalised_debt_from_ltv (7 # 10) 1 = Ok D1 /\
    Cashflow.dscr sample_model (normalised_rent_from_yield (7 # 100) 250000)
      (9 # 10) (1 # 20) Dp = Ok dp /\
    Cashflow.dscr sample_model (normalised_rent_from_yield (7 # 100) 1)
      (9 # 10) (1 # 20) D1 = Ok d1 /\
    dp == d1 /\
    Cashflow.net_cashflow sample_model (normalised_rent_from_yield (7 # 100) 250000)
      (9 # 10) (1 # 20) Dp ==
    250000 * Cashflow.net_cashflow sample_model
               (normalised_rent_from_yield (7 # 100) 1) (9 # 10) (1 # 20) D1.
Proof.
  apply (price_normalisation_is_neutral sample_model
           (7 # 100) (7 # 10) (9 # 10) (1 # 20) 250000); reflexivity.
Defined.

(** ** The analytical solver as a threshold *)




(** ** The yield resolver and the preset selection *)



(** X5.  When the simulation resolves a preset, it is stored under the
    resolved name, a name given on the command line wins over the default,
    and the plotting script resolves the same name and looks for exactly the
    table file the simulation writes. *)
Theorem plots_reads_the_table_simulate_writes
    (results_dir : string) (assumptions : Assumptions) (arg : option string)
    (name : string) (preset : gmap string pyval) :
  select_preset assumptions arg = Ok (name, preset) ->
  cfg_presets assumptions !! name = Some preset /\
  (forall n, arg = Some n -> name = n) /\
  (arg = None -> cfg_default_preset assumptions = Some name) /\
  Plots.csv_path results_dir assumptions arg = Ok (out_csv results_dir name).
Proof.
  unfold select_preset, Plots.csv_path, Plots.resolve_preset, out_csv.
  intros H.
  destruct arg as [n|]; [|destruct (cfg_default_preset assumptions) as [n|]];
    try discriminate;
    destruct (cfg_presets assumptions !! n) as [p|] eqn:E; try discriminate;
    injection H as <- <-; repeat split; try assumption; try reflexivity;
    try congruence.
Qed.

Lemma plots_reads_the_table_simulate_writes_witness :
  Plots.csv_path "results" sample_assumptions (Some "priced") =
  Ok (out_csv "results" "priced").
Proof.
  apply (plots_reads_the_table_simulate_writes "results" sample_assumptions
           (Some "priced") "priced" preset_priced).
  vm_compute. reflexivity.
Defined.

(** ** Normalised weights *)

Lemma normalise_weights_inv (values weights v' w' : ndarray) :
  normalise_weights values weights = Ok (v', w') ->
  shape_ok values weights /\
  Forall (fun w => 0 <= w) (data weights) /\
  0 < np_sum (data weights) /\
  v' = values /\
  w' = {| shape := shape weights;
          data := map (fun w => w / np_sum (data weights)) (data weights) |}.
Proof.
  unfold normalise_weights.
  destruct (negb (ndim values =? 1)%nat || negb (ndim weights =? 1)%nat
            || negb (size values =? size weights)%nat) eqn:Esh; [discriminate|].
  destruct (np_any_lt (data weights) 0) eqn:Eneg; [discriminate|].
  destruct (Qleb (np_sum (data weights)) 0) eqn:Es; [discriminate|].
  intros [= <- <-].
  split; [now apply shape_test_false|].
  split; [now apply np_any_lt_false|].
  split; [now apply Qleb_gt|]. split; reflexivity.
Qed.

Lemma np_sum_ge_elem (ws : list Q) (w : Q) :
  Forall (fun x => 0 <= x) ws -> w ∈ ws -> w <= np_sum ws.
Proof.
  intros Hall Hin. induction Hin as [w ws | w x ws Hin IH];
    apply Forall_cons in Hall as [Hx Hall]; simpl.
  - pose proof (np_sum_nonneg ws Hall). lra.
  - specialize (IH Hall). lra.
Qed.

Lemma map_div_unit (ws : list Q) (t : Q) :
  t == 1 -> Forall2 Qeq (map (fun w => w / t) ws) ws.
Proof.
  intros Ht. induction ws as [|w ws IH]; simpl; constructor; [|exact IH].
  rewrite Ht. field.
Qed.

(** X8.  What [normalise_weights] returns is a probability vector over the
    untouched values: as many weights as before, each between 0 and 1; and
    normalising it again changes nothing (each weight stays equal). *)
Theorem normalise_weights_probability_vector (values weights v' w' : ndarray) :
  normalise_weights values weights = Ok (v', w') ->
  v' = values /\
  shape w' = shape weights /\
  length (data w') = length (data weights) /\
  Forall (fun w => 0 <= w /\ w <= 1) (data w') /\
  exists w'',
    normalise_weights v' w' = Ok (v', w'') /\
    Forall2 Qeq (data w'') (data w').
Proof.
  intros H. apply normalise_weights_inv in H as (Hsh & Hnn & Hpos & -> & ->).
  set (s := np_sum (data weights)) in *. simpl.
  assert (Hunit : Forall (fun w => 0 <= w /\ w <= 1)
                    (map (fun w => w / s) (data weights))).
  { apply Forall_forall. intros q Hq. apply list_elem_of_In, in_map_iff in Hq
      as (w & <- & Hw). apply list_elem_of_In in Hw.
    pose proof (np_sum_ge_elem _ _ Hnn Hw) as Hle. fold s in Hle.
    rewrite Forall_forall in Hnn. specialize (Hnn w Hw). simpl in Hnn.
    split.
    - apply Qle_shift_div_l; [exact Hpos | lra].
    - apply Qle_shift_div_r; [exact Hpos | lra]. }
  split; [reflexivity|]. split; [reflexivity|].
  split; [apply length_map|]. split; [exact Hunit|].
  assert (Hsum : np_sum (map (fun w => w / s) (data weights)) == 1).
  { rewrite np_sum_scaled by lra. fold s. field. lra. }
  eexists. split.
  - apply normalise_weights_ok; simpl.
    + exact Hsh.
    + eapply Forall_impl; [exact Hunit|]. intros q [Hq _]. exact Hq.
    + rewrite Hsum. reflexivity.
  - simpl. apply map_div_unit. exact Hsum.
Qed.

Lemma normalise_weights_probability_vector_witness :
  exists w',
    normalise_weights (array1 [0; 100; 200]) (array1 [5; 3; 2])
      = Ok (array1 [0; 100; 200], w') /\
    Forall (fun w => 0 <= w /\ w <= 1) (data w').
Proof.
  destruct (normalise_weights (array1 [0; 100; 200]) (array1 [5; 3; 2]))
    as [[v' w']|e] eqn:E; [|vm_compute in E; discriminate].
  pose proof (normalise_weights_probability_vector _ _ _ _ E)
    as (-> & _ & _ & Hunit & _).
  exists w'. split; [reflexivity | exact Hunit].
Defined.


(** ** Sums of joint weights *)

Lemma mass_nonneg (phi : (Q * Q) * (Q * Q) -> bool) (L : list ((Q * Q) * (Q * Q))) :
  Forall (fun x => 0 <= joint_weight x) L ->
  0 <= np_sum (map joint_weight (List.filter phi L)).
Proof.
  induction 1 as [|x L Hx _ IH]; simpl; [apply Qle_refl|].
  destruct (phi x); simpl; lra.
Qed.

Lemma mass_mono (phi psi : (Q * Q) * (Q * Q) -> bool)
    (L : list ((Q * Q) * (Q * Q))) :
  Forall (fun x => 0 <= joint_weight x) L ->
  Forall (fun x => phi x = true -> psi x = true) L ->
  np_sum (map joint_weight (List.filter phi L)) <=
  np_sum (map joint_weight (List.filter psi L)).
Proof.
  intros Hnn Himp. induction Hnn as [|x L Hx Hnn IH]; simpl; [apply Qle_refl|].
  apply Forall_cons in Himp as [Hi Himp]. specialize (IH Himp).
  destruct (phi x) eqn:E1.
  - rewrite (Hi eq_refl). simpl. lra.
  - destruct (psi x); simpl; lra.
Qed.


Lemma np_sum_scale (k : Q) (ws : list Q) :
  np_sum (map (Qmult k) ws) == k * np_sum ws.
Proof. induction ws as [|w ws IH]; simpl; [ring | rewrite IH; ring]. Qed.


Lemma joint_weight_nonneg (occs shocks : list (Q * Q)) :
  Forall (fun x => 0 <= snd x) occs ->
  Forall (fun x => 0 <= snd x) shocks ->
  Forall (fun x => 0 <= joint_weight x) (list_prod occs shocks).
Proof.
  intros Ho Hs. apply Forall_forall. intros [[occ po] [shock ps]] Hin.
  apply list_elem_of_In, in_prod_iff in Hin as [H1 H2].
  apply list_elem_of_In in H1, H2.
  rewrite Forall_forall in Ho, Hs.
  specialize (Ho _ H1). specialize (Hs _ H2). simpl in *. nra.
Qed.

Lemma zip_weights_nonneg (vs ws : list Q) :
  Forall (fun w => 0 <= w) ws ->
  Forall (fun x : Q * Q => 0 <= snd x) (zip vs ws).
Proof.
  intros H. revert vs. induction H as [|w ws Hw _ IH]; intros [|v vs]; simpl;
    constructor; auto.
Qed.


Lemma zip_values (vs ws : list Q) (v w : Q) :
  (v, w) ∈ zip vs ws -> v ∈ vs.
Proof.
  revert ws. induction vs as [|v0 vs IH]; intros [|w0 ws] H; simpl in H;
    try (now inversion H).
  apply elem_of_cons in H as [[= -> ->]|H]; [left | right; eauto].
Qed.

Lemma renormalised_nonneg (ws : list Q) :
  Forall (fun w => 0 <= w) ws -> 0 < np_sum ws ->
  Forall (fun w => 0 <= w) (renormalised ws).
Proof.
  intros Hnn Hpos. unfold renormalised. apply Forall_forall. intros q Hq.
  apply list_elem_of_In, in_map_iff in Hq as (w & <- & Hw).
  apply list_elem_of_In in Hw. rewrite Forall_forall in Hnn.
  specialize (Hnn w Hw). simpl in Hnn.
  apply Qle_shift_div_l; [exact Hpos | lra].
Qed.


(** ** The evaluator: when it returns, and what *)

Lemma evaluator_value
    (model : CashflowModel) (gross_rent debt base_rate : Q)
    (shock_bp_values shock_bp_weights occ_values occ_weights : ndarray)
    (min_dscr min_cashflow : Q) :
  valid_distribution shock_bp_values shock_bp_weights ->
  valid_distribution occ_values occ_weights ->
  Forall (positive_interest debt base_rate) (data shock_bp_values) ->
  exists p,
    failure_probability_over_distribution model gross_rent debt base_rate
      shock_bp_values shock_bp_weights occ_values occ_weights
      min_dscr min_cashflow = Ok p /\
    p == brute_force_failure_probability model gross_rent debt base_rate
           min_dscr min_cashflow
           (data shock_bp_values) (data shock_bp_weights)
           (data occ_values) (data occ_weights).
Proof.
  intros Hs Ho Hpos.
  pose proof (valid_distribution_length _ _ Hs) as Hls.
  pose proof (valid_distribution_length _ _ Ho) as Hlo.
  rewrite (failure_probability_loops _ _ _ _ _ _ _ _ _ _ Hs Ho).
  destruct (outer_loop_sum model gross_rent debt base_rate min_dscr min_cashflow
              (np_outer (renormalised (data occ_weights))
                        (renormalised (data shock_bp_weights)))
              (data shock_bp_values) (renormalised (data shock_bp_weights))
              (data occ_values) (renormalised (data occ_weights)))
    with (i0 := 0%nat) (acc := 0) as (p & Hp & Hpeq).
  - unfold renormalised. rewrite length_map. exact Hls.
  - exact Hpos.
  - unfold renormalised. rewrite length_map. exact Hlo.
  - reflexivity.
  - exists p. split.
    + unfold enumerate. rewrite Hp. reflexivity.
    + rewrite Hpeq. unfold brute_force_failure_probability. ring.
Qed.

Lemma evaluator_raises
    (model : CashflowModel) (gross_rent debt base_rate : Q)
    (shock_bp_values shock_bp_weights occ_values occ_weights : ndarray)
    (min_dscr min_cashflow : Q) :
  valid_distribution shock_bp_values shock_bp_weights ->
  valid_distribution occ_values occ_weights ->
  Exists (fun shock => ~ positive_interest debt base_rate shock)
         (data shock_bp_values) ->
  failure_probability_over_distribution model gross_rent debt base_rate
    shock_bp_values shock_bp_weights occ_values occ_weights
    min_dscr min_cashflow = Raise ConfigurationError.
Proof.
  intros Hs Ho Hbad.
  pose proof (valid_distribution_length _ _ Hs) as Hls.
  pose proof (valid_distribution_length _ _ Ho) as Hlo.
  rewrite (failure_probability_loops _ _ _ _ _ _ _ _ _ _ Hs Ho).
  rewrite (outer_loop_raises model gross_rent debt base_rate min_dscr min_cashflow
             _ (data shock_bp_values) (renormalised (data shock_bp_weights))
             (data occ_values) (renormalised (data occ_weights))).
  - reflexivity.
  - unfold renormalised. rewrite length_map. exact Hls.
  - exact Hbad.
  - unfold renormalised. rewrite length_map. exact Hlo.
  - now apply valid_distribution_nonempty with (weights := occ_weights).
  - reflexivity.
Qed.

Lemma positive_interest_dec (debt base_rate : Q) (shocks : list Q) :
  Forall (positive_interest debt base_rate) shocks \/
  Exists (fun shock => ~ positive_interest debt base_rate shock) shocks.
Proof.
  induction shocks as [|shock shocks [IH|IH]].
  - left. constructor.
  - destruct (Qlt_le_dec 0 (scenario_rate base_rate shock * debt)) as [Hp|Hn].
    + left. now constructor.
    + right. left. unfold positive_interest. lra.
  - right. now right.
Qed.

(** A returning evaluator was given valid distributions whose scenarios all
    have positive interest, and returned the reference sum. *)
Lemma evaluator_inv
    (model : CashflowModel) (gross_rent debt base_rate : Q)
    (shock_bp_values shock_bp_weights occ_values occ_weights : ndarray)
    (min_dscr min_cashflow p : Q) :
  wf_array shock_bp_values -> wf_array shock_bp_weights ->
  wf_array occ_values -> wf_array occ_weights ->
  failure_probability_over_distribution model gross_rent debt base_rate
    shock_bp_values shock_bp_weights occ_values occ_weights
    min_dscr min_cashflow = Ok p ->
  valid_distribution shock_bp_values shock_bp_weights /\
  valid_distribution occ_values occ_weights /\
  Forall (positive_interest debt base_rate) (data shock_bp_values) /\
  p == brute_force_failure_probability model gross_rent debt base_rate
         min_dscr min_cashflow
         (data shock_bp_values) (data shock_bp_weights)
         (data occ_values) (data occ_weights).
Proof.
  intros W1 W2 W3 W4 H.
  assert (Hs : valid_distribution shock_bp_values shock_bp_weights).
  { unfold failure_probability_over_distribution in H.
    apply bind_Ok_inv in H as ([v w] & Hn & _).
    apply normalise_weights_inv in Hn as (? & ? & ? & _).
    unfold valid_distribution. auto. }
  assert (Ho : valid_distribution occ_values occ_weights).
  { unfold failure_probability_over_distribution in H.
    apply bind_Ok_inv in H as ([v w] & _ & H).
    apply bind_Ok_inv in H as ([v' w'] & Hn & _).
    apply normalise_weights_inv in Hn as (? & ? & ? & _).
    unfold valid_distribution. auto. }
  split; [exact Hs|]. split; [exact Ho|].
  destruct (positive_interest_dec debt base_rate (data shock_bp_values))
    as [Hpos|Hbad].
  - split; [exact Hpos|].
    destruct (evaluator_value model gross_rent debt base_rate _ _ _ _
                min_dscr min_cashflow Hs Ho Hpos) as (p' & Hp' & Heq).
    rewrite Hp' in H. injection H as <-. exact Heq.
  - rewrite (evaluator_raises model gross_rent debt base_rate _ _ _ _
               min_dscr min_cashflow Hs Ho Hbad) in H.
    discriminate.
Qed.




(** ** More leverage or stricter thresholds never lower the failure
       probability *)

Lemma pair_failed_mono (model : CashflowModel)
    (gross_rent base_rate debt1 debt2 m1 m2 c1 c2 occ shock : Q) :
  0 < debt1 -> debt1 <= debt2 -> m1 <= m2 -> c1 <= c2 ->
  0 < scenario_rate base_rate shock ->
  pair_failed model gross_rent debt1 base_rate m1 c1 occ shock = true ->
  pair_failed model gross_rent debt2 base_rate m2 c2 occ shock = true.
Proof.
  intros Hd1 Hd Hm Hc Hr. unfold pair_failed, dscr_value.
  rewrite !orb_true_iff, !Qltb_lt.
  unfold Cashflow.net_cashflow, Cashflow.interest.
  set (n := Cashflow.noi model gross_rent occ).
  set (r := scenario_rate base_rate shock) in *.
  assert (Hi1 : 0 < r * debt1) by now apply Qmult_pos.
  assert (Hi2 : 0 < r * debt2) by (apply Qmult_pos; lra).
  intros [H|H].
  - left. destruct (Qleb n 0) eqn:E; [lra|].
    apply Qleb_gt in E.
    apply Qdiv_lt_iff in H; [|exact Hi1].
    apply Qdiv_lt_iff; [exact Hi2|].
    assert (Hab : r * debt1 <= r * debt2) by nra.
    generalize dependent (r * debt1). generalize dependent (r * debt2).
    intros b Hb a Ha Hna Hab.
    assert (Hm1 : 0 < m1).
    { destruct (Qlt_le_dec 0 m1) as [Hp|Hn]; [exact Hp|]. exfalso. nra. }
    assert (m1 * a <= m2 * a) by nra.
    assert (m2 * a <= m2 * b) by nra.
    lra.
  - right. assert (r * debt1 <= r * debt2) by nra. lra.
Qed.

(** X10.  For valid distributions whose scenario rates are all positive, the
    failure probability does not decrease when the debt grows or when the
    minimum DSCR or the minimum cashflow is raised. *)
Theorem failure_probability_monotone
    (model : CashflowModel) (gross_rent base_rate : Q)
    (shock_bp_values shock_bp_weights occ_values occ_weights : ndarray)
    (debt1 debt2 m1 m2 c1 c2 : Q) :
  valid_distribution shock_bp_values shock_bp_weights ->
  valid_distribution occ_values occ_weights ->
  Forall (fun shock_bp => 0 < base_rate + shock_bp / 10000) (data shock_bp_values) ->
  0 < debt1 -> debt1 <= debt2 -> m1 <= m2 -> c1 <= c2 ->
  exists p1 p2,
    failure_probability_over_distribution model gross_rent debt1 base_rate
      shock_bp_values shock_bp_weights occ_values occ_weights m1 c1 = Ok p1 /\
    failure_probability_over_distribution model gross_rent debt2 base_rate
      shock_bp_values shock_bp_weights occ_values occ_weights m2 c2 = Ok p2 /\
    p1 <= p2.
Proof.
  intros Hs Ho Hrate Hd1 Hd Hm Hc.
  assert (Hpos : forall debt, 0 < debt ->
            Forall (positive_interest debt base_rate) (data shock_bp_values)).
  { intros debt Hdebt. eapply Forall_impl; [exact Hrate|].
    intros shock H. unfold positive_interest, scenario_rate.
    simpl in H. now apply Qmult_pos. }
  destruct (evaluator_value model gross_rent debt1 base_rate _ _ _ _ m1 c1
              Hs Ho (Hpos debt1 Hd1)) as (p1 & Hp1 & E1).
  assert (Hd2 : 0 < debt2) by lra.
  destruct (evaluator_value model gross_rent debt2 base_rate _ _ _ _ m2 c2
              Hs Ho (Hpos debt2 Hd2)) as (p2 & Hp2 & E2).
  exists p1, p2. split; [exact Hp1|]. split; [exact Hp2|].
  rewrite E1, E2.
  unfold brute_force_failure_probability, joint_failure_mass.
  set (occs := zip (data occ_values) (renormalised (data occ_weights))).
  set (shocks := zip (data shock_bp_values) (renormalised (data shock_bp_weights))).
  destruct Hs as (_ & _ & _ & Hsn & Hsp). destruct Ho as (_ & _ & _ & Hon & Hop).
  apply (mass_mono
           (on_values (pair_failed model gross_rent debt1 base_rate m1 c1))
           (on_values (pair_failed model gross_rent debt2 base_rate m2 c2))).
  - apply joint_weight_nonneg; apply zip_weights_nonneg;
      now apply renormalised_nonneg.
  - apply Forall_forall. intros [[occ po] [shock ps]] Hin. simpl.
    apply list_elem_of_In, in_prod_iff in Hin as [_ Hin].
    apply list_elem_of_In, zip_values in Hin.
    rewrite Forall_forall in Hrate. specialize (Hrate shock Hin). simpl in Hrate.
    now apply pair_failed_mono.
Qed.

Lemma failure_probability_monotone_witness :
  exists p1 p2,
    failure_probability_over_distribution sample_model (7 # 100) (6 # 10) (1 # 20)
      (array1 [0; 100; 200]) (array1 [5; 3; 2])
      (array1 [1; 9 # 10]) (array1 [3; 1]) 1 0 = Ok p1 /\
    failure_probability_over_distribution sample_model (7 # 100) (8 # 10) (1 # 20)
      (array1 [0; 100; 200]) (array1 [5; 3; 2])
      (array1 [1; 9 # 10]) (array1 [3; 1]) (5 # 4) 0 = Ok p2 /\
    p1 <= p2.
Proof.
  apply (failure_probability_monotone sample_model (7 # 100) (1 # 20)
           (array1 [0; 100; 200]) (array1 [5; 3; 2])
           (array1 [1; 9 # 10]) (array1 [3; 1])
           (6 # 10) (8 # 10) 1 (5 # 4) 0 0).
  - solve_valid_distribution.
  - solve_valid_distribution.
  - simpl. solve_forall_Q.
  - reflexivity.
  - vm_compute. discriminate.
  - vm_compute. discriminate.
  - vm_compute. discriminate.
Defined.

(** ** Weights are only relative *)

Lemma zip_same_points (vs ws ws' : list Q) :
  Forall2 Qeq ws ws' -> Forall2 same_point (zip vs ws) (zip vs ws').
Proof.
  intros H. revert vs. induction H as [|w w' ws ws' Hw _ IH]; intros [|v vs];
    simpl; constructor; [split; [reflexivity | exact Hw] | apply IH].
Qed.

Lemma list_prod_same_points (f : Q -> Q -> bool) (occs occs' shocks shocks' : list (Q * Q)) :
  Forall2 same_point occs occs' -> Forall2 same_point shocks shocks' ->
  Forall2 (fun X Y => on_values f X = on_values f Y /\
                      joint_weight X == joint_weight Y)
          (list_prod occs shocks) (list_prod occs' shocks').
Proof.
  intros Ho Hs. induction Ho as [|[occ po] [occ' po'] occs occs' [Ho1 Ho2] _ IH];
    simpl; [constructor|].
  apply Forall2_app; [|exact IH].
  simpl in Ho1, Ho2. subst occ'.
  clear IH. induction Hs as [|[shock ps] [shock' ps'] shocks shocks' [Hs1 Hs2] _ IH];
    simpl; constructor; [|exact IH].
  simpl in Hs1, Hs2. subst shock'. split; [reflexivity|].
  simpl. now rewrite Ho2, Hs2.
Qed.

Lemma mass_same_points (phi psi : (Q * Q) * (Q * Q) -> bool)
    (L L' : list ((Q * Q) * (Q * Q))) :
  Forall2 (fun X Y => phi X = psi Y /\ joint_weight X == joint_weight Y) L L' ->
  np_sum (map joint_weight (List.filter phi L)) ==
  np_sum (map joint_weight (List.filter psi L')).
Proof.
  induction 1 as [|X Y L L' [Hf Hw] _ IH]; simpl; [reflexivity|].
  rewrite Hf. destruct (psi Y); simpl; [rewrite Hw, IH|]; try reflexivity.
  exact IH.
Qed.

Lemma renormalised_scale (k : Q) (ws : list Q) :
  0 < k -> 0 < np_sum ws ->
  Forall2 Qeq (renormalised (map (Qmult k) ws)) (renormalised ws).
Proof.
  intros Hk Hpos. unfold renormalised.
  assert (Es : np_sum (map (Qmult k) ws) == k * np_sum ws) by apply np_sum_scale.
  generalize dependent (np_sum (map (Qmult k) ws)).
  generalize dependent (np_sum ws). intros s Hs t Ht.
  induction ws as [|w ws IH]; simpl; constructor; [|exact IH].
  rewrite Ht. field. split; lra.
Qed.

Lemma valid_distribution_scale (k : Q) (values weights : ndarray) :
  0 < k -> valid_distribution values weights ->
  valid_distribution values (scale_array k weights).
Proof.
  intros Hk (Wv & Ww & Hsh & Hnn & Hpos).
  unfold valid_distribution, wf_array, shape_ok, ndim, size in *. simpl.
  rewrite length_map.
  split; [exact Wv|]. split; [exact Ww|]. split; [exact Hsh|]. split.
  - apply Forall_forall. intros q Hq.
    apply list_elem_of_In, in_map_iff in Hq as (w & <- & Hw).
    apply list_elem_of_In in Hw. rewrite Forall_forall in Hnn.
    specialize (Hnn w Hw). simpl in Hnn. nra.
  - rewrite np_sum_scale. now apply Qmult_pos.
Qed.

(** X11.  Only the proportions of the weights matter: multiplying all shock
    weights by one positive factor and all occupancy weights by another
    leaves the failure probability unchanged. *)
Theorem failure_probability_ignores_weight_scale
    (model : CashflowModel) (gross_rent debt base_rate : Q)
    (shock_bp_values shock_bp_weights occ_values occ_weights : ndarray)
    (min_dscr min_cashflow k j : Q) :
  valid_distribution shock_bp_values shock_bp_weights ->
  valid_distribution occ_values occ_weights ->
  Forall (fun shock_bp => 0 < (base_rate + shock_bp / 10000) * debt)
         (data shock_bp_values) ->
  0 < k -> 0 < j ->
  exists p p',
    failure_probability_over_distribution model gross_rent debt base_rate
      shock_bp_values shock_bp_weights occ_values occ_weights
      min_dscr min_cashflow = Ok p /\
    failure_probability_over_distribution model gross_rent debt base_rate
      shock_bp_values (scale_array k shock_bp_weights)
      occ_values (scale_array j occ_weights)
      min_dscr min_cashflow = Ok p' /\
    p == p'.
Proof.
  intros Hs Ho Hpos Hk Hj.
  destruct (evaluator_value model gross_rent debt base_rate _ _ _ _
              min_dscr min_cashflow Hs Ho Hpos) as (p & Hp & E).
  destruct (evaluator_value model gross_rent debt base_rate _ _ _ _
              min_dscr min_cashflow
              (valid_distribution_scale k _ _ Hk Hs)
              (valid_distribution_scale j _ _ Hj Ho) Hpos) as (p' & Hp' & E').
  exists p, p'. split; [exact Hp|]. split; [exact Hp'|].
  rewrite E, E'. simpl.
  unfold brute_force_failure_probability, joint_failure_mass.
  destruct Hs as (_ & _ & _ & _ & Hsp). destruct Ho as (_ & _ & _ & _ & Hop).
  symmetry.
  apply (mass_same_points
           (on_values (pair_failed model gross_rent debt base_rate
                         min_dscr min_cashflow))
           (on_values (pair_failed model gross_rent debt base_rate
                         min_dscr min_cashflow))).
  apply list_prod_same_points; apply zip_same_points;
    now apply renormalised_scale.
Qed.

Lemma failure_probability_ignores_weight_scale_witness :
  exists p p',
    failure_probability_over_distribution sample_model (7 # 100) (7 # 10) (1 # 20)
      (array1 [0; 100; 200]) (array1 [5; 3; 2])
      (array1 [1; 9 # 10]) (array1 [3; 1]) 1 0 = Ok p /\
    failure_probability_over_distribution sample_model (7 # 100) (7 # 10) (1 # 20)
      (array1 [0; 100; 200]) (scale_array (1 # 10) (array1 [5; 3; 2]))
      (array1 [1; 9 # 10]) (scale_array 25 (array1 [3; 1])) 1 0 = Ok p' /\
    p == p'.
Proof.
  apply (failure_probability_ignores_weight_scale sample_model
           (7 # 100) (7 # 10) (1 # 20)
           (array1 [0; 100; 200]) (array1 [5; 3; 2])
           (array1 [1; 9 # 10]) (array1 [3; 1]) 1 0 (1 # 10) 25).
  - solve_valid_distribution.
  - solve_valid_distribution.
  - simpl. solve_forall_Q.
  - reflexivity.
  - reflexivity.
Defined.

(** ** The worst case on the support *)

Lemma py_min_fold_fin (xs : list Q) (a : Q) :
  exists m,
    fold_left py_min xs (Fin a) = Fin m /\
    m ∈ a :: xs /\ m <= a /\ Forall (fun x => m <= x) xs.
Proof.
  revert a. induction xs as [|x xs IH]; intros a; simpl.
  - exists a. split; [reflexivity|]. split; [left|]. split; [lra | constructor].
  - destruct (Qltb x a) eqn:E.
    + apply Qltb_lt in E. destruct (IH x) as (m & Hm & Hin & Hle & Hall).
      exists m. split; [exact Hm|]. split; [now right|].
      split; [lra|]. now constructor.
    + apply Qltb_ge in E. destruct (IH a) as (m & Hm & Hin & Hle & Hall).
      exists m. split; [exact Hm|]. split.
      * apply elem_of_cons in Hin as [->|Hin]; [left | right; now right].
      * split; [exact Hle|]. constructor; [lra | exact Hall].
Qed.

Lemma py_min_fold_least (xs : list Q) :
  xs <> [] -> exists m, fold_left py_min xs PosInf = Fin m /\ least_of m xs.
Proof.
  destruct xs as [|x xs]; [congruence|]. intros _. simpl.
  destruct (py_min_fold_fin xs x) as (m & Hm & Hin & Hle & Hall).
  exists m. split; [exact Hm|]. split; [exact Hin | now constructor].
Qed.

Lemma worst_inner_loop (model : CashflowModel) (R D base_rate occ : Q)
    (shocks : list Q) (wc wd : ext) :
  Forall (positive_interest D base_rate) shocks ->
  for_each shocks (fun shock_bp '(worst_cf, worst_dscr) =>
      let rate := base_rate + shock_bp / 10000 in
      let cf := Cashflow.net_cashflow model R occ rate D in
      do ds <- Cashflow.dscr model R occ rate D;
      Ok (py_min worst_cf cf, py_min worst_dscr ds)) (wc, wd) =
  Ok (fold_left py_min
        (map (fun shock_bp =>
                Cashflow.net_cashflow model R occ (scenario_rate base_rate shock_bp) D)
             shocks) wc,
      fold_left py_min
        (map (fun shock_bp => dscr_value model R D base_rate occ shock_bp) shocks) wd).
Proof.
  intros Hpos. revert wc wd.
  induction Hpos as [|shock shocks Hp _ IH]; intros wc wd; simpl; [reflexivity|].
  fold (scenario_rate base_rate shock).
  rewrite (dscr_scenario model R D base_rate occ shock Hp). simpl.
  apply IH.
Qed.

Lemma worst_outer_loop (model : CashflowModel) (R D base_rate : Q)
    (occs shocks : list Q) :
  Forall (positive_interest D base_rate) shocks ->
  worst_case_on_support model R D base_rate occs shocks =
  Ok (fold_left py_min (support_cashflows model R D base_rate occs shocks) PosInf,
      fold_left py_min (support_dscrs model R D base_rate occs shocks) PosInf).
Proof.
  intros Hpos. unfold worst_case_on_support, support_cashflows, support_dscrs.
  generalize PosInf at 1 3. generalize PosInf.
  induction occs as [|occ occs IH]; intros wd wc; [reflexivity|].
  cbn [for_each].
  pose proof (worst_inner_loop model R D base_rate occ shocks wc wd Hpos) as Hin.
  cbv zeta in Hin. rewrite Hin.
  cbn [bind]. rewrite IH. cbn [list_prod].
  rewrite !map_app, !fold_left_app, !map_map. reflexivity.
Qed.

Lemma support_cashflows_nonempty (model : CashflowModel) (R D base_rate : Q)
    (occs shocks : list Q) :
  occs <> [] -> shocks <> [] ->
  support_cashflows model R D base_rate occs shocks <> [] /\
  support_dscrs model R D base_rate occs shocks <> [].
Proof.
  intros Ho Hs. unfold support_cashflows, support_dscrs.
  destruct occs as [|occ occs]; [congruence|].
  destruct shocks as [|shock shocks]; [congruence|].
  simpl. split; discriminate.
Qed.

(** On a non-empty support with positive interest everywhere the loop
    returns the least cashflow and the least DSCR of the support. *)
Lemma worst_case_least (model : CashflowModel) (R D base_rate : Q)
    (occs shocks : list Q) :
  occs <> [] -> shocks <> [] ->
  Forall (positive_interest D base_rate) shocks ->
  exists wc wd,
    worst_case_on_support model R D base_rate occs shocks = Ok (Fin wc, Fin wd) /\
    least_of wc (support_cashflows model R D base_rate occs shocks) /\
    least_of wd (support_dscrs model R D base_rate occs shocks).
Proof.
  intros Ho Hs Hpos.
  destruct (support_cashflows_nonempty model R D base_rate occs shocks Ho Hs)
    as [Hc Hd].
  destruct (py_min_fold_least _ Hc) as (wc & Ewc & Lwc).
  destruct (py_min_fold_least _ Hd) as (wd & Ewd & Lwd).
  exists wc, wd. rewrite (worst_outer_loop _ _ _ _ _ _ Hpos), Ewc, Ewd. auto.
Qed.

(** ** Rows of the sweep *)

Lemma normalised_debt_inv (ltv price D : Q) :
  normalised_debt_from_ltv ltv price = Ok D ->
  0 < ltv /\ ltv < 1 /\ D = ltv * price.
Proof.
  unfold normalised_debt_from_ltv.
  destruct (Qleb ltv 0) eqn:E0; [discriminate|].
  destruct (Qgeb ltv 1) eqn:E1; [discriminate|]. simpl.
  intros [= <-]. apply Qleb_gt in E0.
  split; [exact E0|]. split; [|reflexivity].
  apply Qnot_le_lt. intros H. apply Qgeb_ge in H. congruence.
Qed.

Lemma sweep_row_inv model preset_name c gross_yield base_rate min_dscr
    min_cf max_fail_prob stress_occ stress_shock_bp
    shock_bp_values shock_bp_weights occ_values occ_weights ltv row :
  sweep_row model preset_name c gross_yield base_rate min_dscr min_cf
    max_fail_prob stress_occ stress_shock_bp
    shock_bp_values shock_bp_weights occ_values occ_weights ltv = Ok row ->
  let R := normalised_rent_from_yield gross_yield 1 in
  let stress_rate := base_rate + stress_shock_bp / 10000 in
  exists D stress_dscr p_fail worst_cf worst_dscr max_rate,
    normalised_debt_from_ltv ltv 1 = Ok D /\
    Cashflow.dscr model R stress_occ stress_rate D = Ok stress_dscr /\
    failure_probability_over_distribution model R D base_rate
      shock_bp_values shock_bp_weights occ_values occ_weights min_dscr min_cf
      = Ok p_fail /\
    worst_case_on_support model R D base_rate
      (data occ_values) (data shock_bp_values) = Ok (worst_cf, worst_dscr) /\
    analytical_max_rate_for_dscr c gross_yield ltv stress_occ min_dscr
      = Ok max_rate /\
    row_preset row = preset_name /\
    row_gross_yield row = gross_yield /\
    row_base_rate row = base_rate /\
    row_ltv row = ltv /\
    row_theta_rent_to_debt row = gross_yield / ltv /\
    row_stress_occ row = stress_occ /\
    row_stress_shock_bp row = stress_shock_bp /\
    row_stress_rate row = stress_rate /\
    row_stress_cashflow row =
      Cashflow.net_cashflow model R stress_occ stress_rate D /\
    row_stress_dscr row = stress_dscr /\
    row_worst_cashflow_on_support row = worst_cf /\
    row_worst_dscr_on_support row = worst_dscr /\
    row_failure_probability row = p_fail /\
    row_max_failure_probability row = max_fail_prob /\
    row_max_shock_bp_at_stress_occ_dscr1 row =
      analytical_break_even_shock_bp base_rate max_rate.
Proof.
  unfold sweep_row. intros H.
  apply bind_Ok_inv in H as (D & HD & H).
  apply bind_Ok_inv in H as (stress_dscr & Hdscr & H).
  apply bind_Ok_inv in H as (p_fail & Hp & H).
  apply bind_Ok_inv in H as ([worst_cf worst_dscr] & Hw & H).
  apply bind_Ok_inv in H as (max_rate & Hmr & H).
  injection H as <-.
  exists D, stress_dscr, p_fail, worst_cf, worst_dscr, max_rate. simpl.
  repeat (split; [first [assumption | reflexivity]|]). reflexivity.
Qed.

Lemma main_inv (args : Args) (assumptions : Assumptions) (rows : list Row) :
  main args assumptions = Ok rows ->
  exists preset_name preset gross_yield ltvs,
    select_preset assumptions (arg_preset args) = Ok (preset_name, preset) /\
    implied_gross_yield preset = Ok gross_yield /\
    ltv_grid (cfg_sweep_start assumptions) (cfg_sweep_stop assumptions)
             (cfg_sweep_step assumptions) = Ok ltvs /\
    Forall2
      (fun ltv row =>
         sweep_row (run_model assumptions) preset_name
           (cfg_operating_cost_ratio assumptions) gross_yield
           (run_base_rate args assumptions)
           (cfg_min_dscr assumptions) (cfg_min_cashflow assumptions)
           (cfg_max_failure_probability assumptions)
           (cfg_stress_occupancy assumptions) (cfg_stress_rate_shock_bp assumptions)
           (cfg_shock_bp_values assumptions) (cfg_shock_bp_weights assumptions)
           (cfg_occ_values assumptions) (cfg_occ_weights assumptions) ltv = Ok row)
      ltvs rows.
Proof.
  unfold main. intros H.
  apply bind_Ok_inv in H as ([preset_name preset] & Hsel & H).
  apply bind_Ok_inv in H as (gross_yield & Hgy & H).
  apply bind_Ok_inv in H as (ltvs & Hgrid & H).
  apply bind_Ok_inv in H as (table & H & Hsnap).
  apply console_snapshot_inv in Hsnap as [-> _].
  apply for_each_append in H as (rows' & -> & Hall).
  exists preset_name, preset, gross_yield, ltvs. simpl. auto.
Qed.

(** X12.  The table has one row per grid point, in grid order: the [k]-th
    row carries the [k]-th LTV of the grid, and every LTV of the table lies
    strictly between 0 and 1.  All rows carry the resolved preset name, its
    gross yield, and the rent-to-debt ratio [gross_yield / ltv]. *)
Theorem sweep_table_follows_grid (args : Args) (assumptions : Assumptions)
    (rows : list Row) :
  main args assumptions = Ok rows ->
  exists preset_name preset gross_yield ltvs,
    select_preset assumptions (arg_preset args) = Ok (preset_name, preset) /\
    implied_gross_yield preset = Ok gross_yield /\
    ltv_grid (cfg_sweep_start assumptions) (cfg_sweep_stop assumptions)
             (cfg_sweep_step assumptions) = Ok ltvs /\
    map row_ltv rows = ltvs /\
    Forall (fun row =>
              0 < row_ltv row /\ row_ltv row < 1 /\
              row_preset row = preset_name /\
              row_gross_yield row = gross_yield /\
              row_theta_rent_to_debt row = gross_yield / row_ltv row) rows.
Proof.
  intros H. apply main_inv in H as (name & preset & gy & ltvs & Hs & Hg & Hl & Hall).
  exists name, preset, gy, ltvs. repeat (split; [assumption|]).
  clear Hs Hg Hl.
  induction Hall as [|ltv row ltvs' rows' Hrow _ IH]; simpl.
  - split; [reflexivity | constructor].
  - apply sweep_row_inv in Hrow
      as (D & sd & p & wc & wd & mr & HD & _ & _ & _ & _ & Hn & Hy & _ & Hltv & Ht & _).
    apply normalised_debt_inv in HD as (H0 & H1 & _).
    destruct IH as [IH1 IH2]. split; [now rewrite Hltv, IH1|].
    constructor; [|exact IH2]. rewrite Hltv. auto.
Qed.

Lemma sweep_table_follows_grid_witness :
  exists rows ltvs,
    main sample_args sample_assumptions = Ok rows /\
    ltv_grid d0_5 d0_8 d0_05 = Ok ltvs /\
    map row_ltv rows = ltvs.
Proof.
  destruct (main sample_args sample_assumptions) as [rows|e] eqn:E;
    [|vm_compute in E; discriminate].
  destruct (sweep_table_follows_grid sample_args sample_assumptions rows E)
    as (name & preset & gy & ltvs & _ & _ & Hl & Hmap & _).
  exists rows, ltvs. split; [reflexivity|]. split; [exact Hl | exact Hmap].
Defined.

Lemma analytical_max_rate_inv (c R D occ m r : Q) :
  analytical_max_rate_for_dscr c R D occ m = Ok r ->
  0 < D /\ 0 < m /\ r = (1 - c) * R * occ / (m * D).
Proof.
  unfold analytical_max_rate_for_dscr.
  destruct (Qleb D 0) eqn:ED; [discriminate|].
  destruct (Qleb m 0) eqn:Em; [discriminate|].
  intros [= <-]. apply Qleb_gt in ED, Em. auto.
Qed.

Lemma dscr_returns_positive_interest (self : CashflowModel) (R occ rate debt d : Q) :
  Cashflow.dscr self R occ rate debt = Ok d -> 0 < rate * debt.
Proof.
  intros H. apply Qnot_le_lt. intros Hle.
  apply (dscr_raises_iff self R occ rate debt) in Hle as [e He]. congruence.
Qed.



Lemma support_membership (model : CashflowModel) (R D base_rate : Q)
    (ov sv pos qs : list Q) (occ po shock ps : Q) :
  (occ, po, (shock, ps)) ∈ list_prod (zip ov pos) (zip sv qs) ->
  Cashflow.net_cashflow model R occ (scenario_rate base_rate shock) D
    ∈ support_cashflows model R D base_rate ov sv /\
  dscr_value model R D base_rate occ shock
    ∈ support_dscrs model R D base_rate ov sv.
Proof.
  intros Hin. apply list_elem_of_In, in_prod_iff in Hin as [Ho Hs].
  apply list_elem_of_In, zip_values in Ho, Hs.
  assert (Hp : In (occ, shock) (list_prod ov sv)).
  { apply in_prod_iff. split; now apply list_elem_of_In. }
  unfold support_cashflows, support_dscrs.
  split; apply list_elem_of_In, in_map_iff; exists (occ, shock); auto.
Qed.

Lemma mass_none (L : list ((Q * Q) * (Q * Q))) :
  List.filter (fun _ => false) L = [].
Proof. induction L as [|x L IH]; simpl; auto. Qed.

Lemma no_failure_when_worst_case_passes
    (model : CashflowModel) (R D base_rate min_dscr min_cf wc wd : Q)
    (sv sw ov ow : list Q) :
  Forall (fun w => 0 <= w) sw -> Forall (fun w => 0 <= w) ow ->
  0 < np_sum sw -> 0 < np_sum ow ->
  Forall (fun x => wc <= x) (support_cashflows model R D base_rate ov sv) ->
  Forall (fun x => wd <= x) (support_dscrs model R D base_rate ov sv) ->
  min_cf <= wc -> min_dscr <= wd ->
  brute_force_failure_probability model R D base_rate min_dscr min_cf sv sw ov ow
    == 0.
Proof.
  intros Hs Ho Hps Hpo Hcf Hds Hc Hd.
  unfold brute_force_failure_probability, joint_failure_mass.
  set (occs := zip ov (renormalised ow)).
  set (shocks := zip sv (renormalised sw)).
  assert (Hnn : Forall (fun x => 0 <= joint_weight x) (list_prod occs shocks)).
  { apply joint_weight_nonneg; apply zip_weights_nonneg;
      now apply renormalised_nonneg. }
  pose proof (mass_nonneg
                (on_values (pair_failed model R D base_rate min_dscr min_cf))
                _ Hnn) as Hlow.
  pose proof (mass_mono
                (on_values (pair_failed model R D base_rate min_dscr min_cf))
                (fun _ => false) _ Hnn) as Hup.
  rewrite mass_none in Hup. simpl in Hup.
  change (np_sum (map joint_weight
            (List.filter (on_values (pair_failed model R D base_rate min_dscr min_cf))
               (list_prod occs shocks))) == 0).
  apply Qle_antisym; [|exact Hlow]. apply Hup.
  apply Forall_forall. intros [[occ po] [shock ps]] Hin. simpl.
  destruct (support_membership model R D base_rate _ _ _ _ _ _ _ _ Hin)
    as [Hc' Hd'].
  rewrite Forall_forall in Hcf, Hds.
  specialize (Hcf _ Hc'). specialize (Hds _ Hd'). simpl in Hcf, Hds.
  unfold pair_failed. intros Hf. apply orb_true_iff in Hf as [Hf|Hf];
    apply Qltb_lt in Hf; lra.
Qed.

(** X14.  In every row of the table (for arrays whose data match their
    shape) the two worst-case fields are finite: the least net cashflow and
    the least DSCR over all pairs of the support.  When both reach their
    minima, the failure probability of the row is 0. *)
Theorem worst_case_fields_are_minima (args : Args) (assumptions : Assumptions)
    (rows : list Row) :
  wf_array (cfg_shock_bp_values assumptions) ->
  wf_array (cfg_shock_bp_weights assumptions) ->
  wf_array (cfg_occ_values assumptions) ->
  wf_array (cfg_occ_weights assumptions) ->
  main args assumptions = Ok rows ->
  Forall
    (fun row =>
       let R := normalised_rent_from_yield (row_gross_yield row) 1 in
       exists D wc wd,
         normalised_debt_from_ltv (row_ltv row) 1 = Ok D /\
         row_worst_cashflow_on_support row = Fin wc /\
         row_worst_dscr_on_support row = Fin wd /\
         least_of wc
           (support_cashflows (run_model assumptions) R D
              (run_base_rate args assumptions)
              (data (cfg_occ_values assumptions))
              (data (cfg_shock_bp_values assumptions))) /\
         least_of wd
           (support_dscrs (run_model assumptions) R D
              (run_base_rate args assumptions)
              (data (cfg_occ_values assumptions))
              (data (cfg_shock_bp_values assumptions))) /\
         (cfg_min_cashflow assumptions <= wc ->
          cfg_min_dscr assumptions <= wd ->
          row_failure_probability row == 0))
    rows.
Proof.
  intros W1 W2 W3 W4 H.
  apply main_inv in H as (name & preset & gy & ltvs & _ & _ & _ & Hall).
  induction Hall as [|ltv row ltvs' rows' Hrow _ IH]; constructor; [|exact IH].
  apply sweep_row_inv in Hrow
    as (D & sd & p & wc' & wd' & mr & HD & _ & Hp & Hw & _ & _ & Hy & _ & Hltv & _
        & _ & _ & _ & _ & _ & Hwc & Hwd & Hrp & _).
  apply evaluator_inv in Hp as (Hs & Ho & Hpos & Heq); try assumption.
  pose proof (valid_distribution_nonempty _ _ Hs) as Hsne.
  pose proof (valid_distribution_nonempty _ _ Ho) as Hone.
  destruct (worst_case_least (run_model assumptions)
              (normalised_rent_from_yield gy 1) D (run_base_rate args assumptions)
              _ _ Hone Hsne Hpos) as (wc & wd & Hw' & Lc & Ld).
  rewrite Hw' in Hw. injection Hw as <- <-.
  cbv zeta. rewrite Hy, Hltv. exists D, wc, wd.
  repeat (split; [assumption|]).
  intros Hc Hd. rewrite Hrp, Heq.
  destruct Hs as (_ & _ & _ & Hsn & Hsp). destruct Ho as (_ & _ & _ & Hon & Hop).
  destruct Lc as [_ Lc]. destruct Ld as [_ Ld].
  now apply (no_failure_when_worst_case_passes _ _ _ _ _ _ wc wd).
Qed.

Lemma worst_case_fields_are_minima_witness :
  exists rows,
    main sample_args sample_assumptions = Ok rows /\
    Forall
      (fun row => exists wc wd,
         row_worst_cashflow_on_support row = Fin wc /\
         row_worst_dscr_on_support row = Fin wd /\
         (0 <= wc -> 1 <= wd -> row_failure_probability row == 0))
      rows.
Proof.
  destruct (main sample_args sample_assumptions) as [rows|e] eqn:E;
    [|vm_compute in E; discriminate].
  exists rows. split; [reflexivity|].
  pose proof (worst_case_fields_are_minima sample_args sample_assumptions rows
                eq_refl eq_refl eq_refl eq_refl E) as H.
  eapply Forall_impl; [exact H|].
  intros row (D & wc & wd & _ & Hc & Hd & _ & _ & Hz). exists wc, wd. auto.
Defined.




(** X16.  A table with at least one row certifies the configuration (for
    arrays whose data match their shape): the minimum DSCR is positive, both
    distributions are valid, and the stress rate and the rate of every shock
    of the distribution are positive. *)
Theorem nonempty_table_certifies_configuration (args : Args)
    (assumptions : Assumptions) (rows : list Row) :
  wf_array (cfg_shock_bp_values assumptions) ->
  wf_array (cfg_shock_bp_weights assumptions) ->
  wf_array (cfg_occ_values assumptions) ->
  wf_array (cfg_occ_weights assumptions) ->
  main args assumptions = Ok rows ->
  rows <> [] ->
  0 < cfg_min_dscr assumptions /\
  valid_distribution (cfg_shock_bp_values assumptions)
                     (cfg_shock_bp_weights assumptions) /\
  valid_distribution (cfg_occ_values assumptions) (cfg_occ_weights assumptions) /\
  0 < run_base_rate args assumptions
      + cfg_stress_rate_shock_bp assumptions / 10000 /\
  Forall (fun shock_bp => 0 < run_base_rate args assumptions + shock_bp / 10000)
         (data (cfg_shock_bp_values assumptions)).
Proof.
  intros W1 W2 W3 W4 H Hne.
  apply main_inv in H as (name & preset & gy & ltvs & _ & _ & _ & Hall).
  destruct Hall as [|ltv row ltvs' rows' Hrow _]; [congruence|].
  apply sweep_row_inv in Hrow
    as (D & sd & p & wc & wd & mr & HD & Hsd & Hp & _ & Hmr & _).
  apply normalised_debt_inv in HD as (H0 & H1 & ->).
  apply analytical_max_rate_inv in Hmr as (_ & Hm & _).
  apply dscr_returns_positive_interest in Hsd.
  apply evaluator_inv in Hp as (Hs & Ho & Hpos & _); try assumption.
  split; [exact Hm|]. split; [exact Hs|]. split; [exact Ho|].
  split; [nra|].
  eapply Forall_impl; [exact Hpos|].
  intros shock Hi. unfold positive_interest, scenario_rate in Hi. simpl. nra.
Qed.

Lemma nonempty_table_certifies_configuration_witness :
  0 < cfg_min_dscr sample_assumptions /\
  Forall (fun shock_bp => 0 < run_base_rate sample_args sample_assumptions
                              + shock_bp / 10000)
         (data (cfg_shock_bp_values sample_assumptions)).
Proof.
  destruct (main sample_args sample_assumptions) as [rows|e] eqn:E;
    [|vm_compute in E; discriminate].
  assert (Hne : rows <> []).
  { vm_compute in E. injection E as <-. discriminate. }
  pose proof (nonempty_table_certifies_configuration sample_args
                sample_assumptions rows eq_refl eq_refl eq_refl eq_refl E Hne)
    as (Hm & _ & _ & _ & Hall).
  split; [exact Hm | exact Hall].
Defined.

(** ** The admissible LTVs form an initial segment of the table *)

Lemma Qdiv_antitone_le (n a b : Q) : 0 < n -> 0 < a -> a <= b -> n / b <= n / a.
Proof.
  intros Hn Ha Hab.
  assert (Hb : 0 < b) by lra.
  apply Qle_shift_div_r; [exact Hb|].
  assert (Hq : 0 < n / a) by now apply Qdiv_pos.
  assert (E : n == n / a * a) by (field; lra).
  rewrite E at 1. nra.
Qed.

Lemma brute_force_monotone
    (model : CashflowModel) (gross_rent base_rate debt1 debt2 m c : Q)
    (sv sw ov ow : list Q) :
  Forall (fun w => 0 <= w) sw -> Forall (fun w => 0 <= w) ow ->
  0 < np_sum sw -> 0 < np_sum ow ->
  Forall (fun shock => 0 < scenario_rate base_rate shock) sv ->
  0 < debt1 -> debt1 <= debt2 ->
  brute_force_failure_probability model gross_rent debt1 base_rate m c sv sw ov ow
  <= brute_force_failure_probability model gross_rent debt2 base_rate m c sv sw ov ow.
Proof.
  intros Hsn Hon Hsp Hop Hrate Hd1 Hd.
  unfold brute_force_failure_probability, joint_failure_mass.
  apply (mass_mono
           (on_values (pair_failed model gross_rent debt1 base_rate m c))
           (on_values (pair_failed model gross_rent debt2 base_rate m c))).
  - apply joint_weight_nonneg; apply zip_weights_nonneg;
      now apply renormalised_nonneg.
  - apply Forall_forall. intros [[occ po] [shock ps]] Hin. simpl.
    apply list_elem_of_In, in_prod_iff in Hin as [_ Hin].
    apply list_elem_of_In, zip_values in Hin.
    rewrite Forall_forall in Hrate. specialize (Hrate shock Hin). simpl in Hrate.
    apply pair_failed_mono; try assumption; apply Qle_refl.
Qed.

Lemma sweep_rows_ordered model preset_name c gross_yield base_rate min_dscr
    min_cf max_fail_prob stress_occ stress_shock_bp
    shock_bp_values shock_bp_weights occ_values occ_weights ltv1 ltv2 r1 r2 :
  wf_array shock_bp_values -> wf_array shock_bp_weights ->
  wf_array occ_values -> wf_array occ_weights ->
  sweep_row model preset_name c gross_yield base_rate min_dscr min_cf
    max_fail_prob stress_occ stress_shock_bp
    shock_bp_values shock_bp_weights occ_values occ_weights ltv1 = Ok r1 ->
  sweep_row model preset_name c gross_yield base_rate min_dscr min_cf
    max_fail_prob stress_occ stress_shock_bp
    shock_bp_values shock_bp_weights occ_values occ_weights ltv2 = Ok r2 ->
  ltv1 <= ltv2 ->
  row_failure_probability r1 <= row_failure_probability r2 /\
  row_stress_cashflow r2 <= row_stress_cashflow r1 /\
  row_stress_dscr r2 <= row_stress_dscr r1 /\
  (row_admissible r2 = true -> row_admissible r1 = true).
Proof.
  intros W1 W2 W3 W4 H1 H2 Hle.
  pose proof (sweep_row_consistent _ _ _ _ _ _ _ _ _ _ _ _ _ _ _ _ H1)
    as (_ & _ & (D1' & _ & _ & _ & _ & Fs1 & Fp1 & Fa1)).
  pose proof (sweep_row_consistent _ _ _ _ _ _ _ _ _ _ _ _ _ _ _ _ H2)
    as (_ & _ & (D2' & _ & _ & _ & _ & Fs2 & Fp2 & Fa2)).
  apply sweep_row_inv in H1
    as (D1 & sd1 & p1 & wc1 & wd1 & mr1 & HD1 & Hsd1 & Hp1 & _ & _ & _ & _ & _
        & _ & _ & _ & _ & _ & Hcf1 & Hrsd1 & _ & _ & Hrp1 & _).
  apply sweep_row_inv in H2
    as (D2 & sd2 & p2 & wc2 & wd2 & mr2 & HD2 & Hsd2 & Hp2 & _ & _ & _ & _ & _
        & _ & _ & _ & _ & _ & Hcf2 & Hrsd2 & _ & _ & Hrp2 & _).
  apply normalised_debt_inv in HD1 as (H10 & H11 & ->).
  apply normalised_debt_inv in HD2 as (H20 & H21 & ->).
  set (R := normalised_rent_from_yield gross_yield 1) in *.
  set (rate := base_rate + stress_shock_bp / 10000) in *.
  pose proof (dscr_returns_positive_interest _ _ _ _ _ _ Hsd1) as Hi1.
  pose proof (dscr_returns_positive_interest _ _ _ _ _ _ Hsd2) as Hi2.
  assert (Hrate : 0 < rate) by nra.
  assert (Hii : rate * (ltv1 * 1) <= rate * (ltv2 * 1)) by nra.
  (* failure probability *)
  apply evaluator_inv in Hp1 as (Hs & Ho & Hpos1 & E1); try assumption.
  apply evaluator_inv in Hp2 as (_ & _ & _ & E2); try assumption.
  assert (Hp : row_failure_probability r1 <= row_failure_probability r2).
  { rewrite Hrp1, Hrp2, E1, E2.
    destruct Hs as (_ & _ & _ & Hsn & Hsp). destruct Ho as (_ & _ & _ & Hon & Hop).
    apply brute_force_monotone; try assumption; try lra.
    eapply Forall_impl; [exact Hpos1|].
    intros shock Hi. unfold positive_interest in Hi. simpl. nra. }
  (* stress cashflow *)
  assert (Hcf : row_stress_cashflow r2 <= row_stress_cashflow r1).
  { rewrite Hcf1, Hcf2. unfold Cashflow.net_cashflow, Cashflow.interest. lra. }
  (* stress DSCR *)
  assert (Hds : row_stress_dscr r2 <= row_stress_dscr r1).
  { rewrite Hrsd1, Hrsd2.
    destruct (dscr_value_cases model R stress_occ rate (ltv1 * 1) Hi1)
      as (d1 & Hd1 & C1).
    destruct (dscr_value_cases model R stress_occ rate (ltv2 * 1) Hi2)
      as (d2 & Hd2 & C2).
    rewrite Hsd1 in Hd1. rewrite Hsd2 in Hd2.
    injection Hd1 as <-. injection Hd2 as <-.
    destruct C1 as [[Hn1 ->]|[Hn1 ->]]; destruct C2 as [[Hn2 ->]|[Hn2 ->]];
      try lra.
    now apply Qdiv_antitone_le. }
  split; [exact Hp|]. split; [exact Hcf|]. split; [exact Hds|].
  intros Hadm. apply Fa2 in Hadm as [Hs2 Hp2].
  apply Fs2 in Hs2 as [Hs2c Hs2d]. apply Fp2 in Hp2.
  apply Fa1. split; [apply Fs1; split; lra | apply Fp1; lra].
Qed.

(** X17.  Down the table (for arrays whose data match their shape) the LTV
    does not decrease, the failure probability does not decrease, and the
    stress cashflow and stress DSCR do not increase.  Hence the admissible
    rows form an initial segment: above an admissible row every row is
    admissible. *)
Theorem admissible_rows_form_a_prefix (args : Args) (assumptions : Assumptions)
    (rows : list Row) (i j : nat) (ri rj : Row) :
  wf_array (cfg_shock_bp_values assumptions) ->
  wf_array (cfg_shock_bp_weights assumptions) ->
  wf_array (cfg_occ_values assumptions) ->
  wf_array (cfg_occ_weights assumptions) ->
  main args assumptions = Ok rows ->
  (i <= j)%nat -> rows !! i = Some ri -> rows !! j = Some rj ->
  row_ltv ri <= row_ltv rj /\
  row_failure_probability ri <= row_failure_probability rj /\
  row_stress_cashflow rj <= row_stress_cashflow ri /\
  row_stress_dscr rj <= row_stress_dscr ri /\
  (row_admissible rj = true -> row_admissible ri = true).
Proof.
  intros W1 W2 W3 W4 H Hij Hi Hj.
  apply main_inv in H as (name & preset & gy & ltvs & _ & _ & Hgrid & Hall).
  destruct (Forall2_lookup_r _ _ _ _ _ Hall Hi) as (li & Hli & Hri).
  destruct (Forall2_lookup_r _ _ _ _ _ Hall Hj) as (lj & Hlj & Hrj).
  apply ltv_grid_inv in Hgrid as (Hstep & n & _ & ->).
  rewrite list_lookup_fmap in Hli, Hlj.
  destruct (seq 0 _ !! i) as [i'|] eqn:Ei; [|discriminate].
  destruct (seq 0 _ !! j) as [j'|] eqn:Ej; [|discriminate].
  apply lookup_seq in Ei as [-> _]. apply lookup_seq in Ej as [-> _].
  simpl in Hli, Hlj. injection Hli as <-. injection Hlj as <-.
  assert (Hle : grid_point (value (cfg_sweep_start assumptions))
                  (value (cfg_sweep_step assumptions)) i <=
                grid_point (value (cfg_sweep_start assumptions))
                  (value (cfg_sweep_step assumptions)) j)
    by now apply grid_point_monotone.
  pose proof (sweep_rows_ordered _ _ _ _ _ _ _ _ _ _ _ _ _ _ _ _ _ _
                W1 W2 W3 W4 Hri Hrj Hle) as Hord.
  apply sweep_row_inv in Hri as (? & ? & ? & ? & ? & ? & _ & _ & _ & _ & _ & _
                                 & _ & _ & Hl1 & _).
  apply sweep_row_inv in Hrj as (? & ? & ? & ? & ? & ? & _ & _ & _ & _ & _ & _
                                 & _ & _ & Hl2 & _).
  split; [now rewrite Hl1, Hl2 | exact Hord].
Qed.

Lemma admissible_rows_form_a_prefix_witness :
  exists rows ri rj,
    main sample_args sample_assumptions = Ok rows /\
    rows !! 0%nat = Some ri /\ rows !! 4%nat = Some rj /\
    row_failure_probability ri <= row_failure_probability rj /\
    (row_admissible rj = true -> row_admissible ri = true).
Proof.
  destruct (main sample_args sample_assumptions) as [rows|e] eqn:E;
    [|vm_compute in E; discriminate].
  destruct (rows !! 0%nat) as [ri|] eqn:Ei;
    [|vm_compute in E; injection E as <-; discriminate].
  destruct (rows !! 4%nat) as [rj|] eqn:Ej;
    [|vm_compute in E; injection E as <-; discriminate].
  exists rows, ri, rj.
  split; [reflexivity|]. split; [exact Ei|]. split; [exact Ej|].
  destruct (admissible_rows_form_a_prefix sample_args sample_assumptions rows
              0 4 ri rj eq_refl eq_refl eq_refl eq_refl E (Nat.le_0_l 4) Ei Ej)
    as (_ & Hp & _ & _ & Ha).
  split; [exact Hp | exact Ha].
Defined.
